(** * mbeumo-bot: the pattern matcher and the stats store

    A shallow embedding of [mbeumo_spelling_bot.py].  Python strings are
    sequences of Unicode code points; the parts of the Python runtime that
    the program calls but does not define (the Unicode character tables
    outside ASCII, the JSON codec) are parameters of the development. *)

From Stdlib Require Import ZArith NArith String Ascii Bool Lia.
From stdpp Require Import gmap list.

Local Open Scope N_scope.
Local Set Warnings "-register-all".

(** ** Python strings *)

(** A [str] is a list of code points. *)
Abbreviation pystr := (list N).

(** A literal of the source, code point by code point. *)
Definition str (s : string) : pystr :=
  List.map N_of_ascii (list_ascii_of_string s).

(** ** Character tables, ASCII part *)

Definition is_ascii (c : N) : bool := c <? 128.

Definition ascii_isalnum (c : N) : bool :=
  ((48 <=? c) && (c <=? 57)) || ((65 <=? c) && (c <=? 90)) || ((97 <=? c) && (c <=? 122)).

Definition ascii_tolower (c : N) : N :=
  if (65 <=? c) && (c <=? 90) then c + 32 else c.

(** The lower-case ASCII letters that fold only with their own upper case:
    [i], [k] and [s] have further case-insensitive equivalents in [re]
    (U+0130, U+0131, U+212A, U+017F) and are compiled differently. *)
Definition plain_letter (c : N) : bool :=
  (97 <=? c) && (c <=? 122) && negb (c =? 105) && negb (c =? 107) && negb (c =? 115).

(** ** Compiled patterns: the fragment of [re] the program uses *)

(** [\b] compiles to [AT_UNI_BOUNDARY]; under [re.I] a cased literal compiles
    to [LITERAL_UNI_IGNORE] carrying its lower-case code point. *)
Inductive re_op : Type :=
| AT_UNI_BOUNDARY
| LITERAL_UNI_IGNORE (lo : N).

Abbreviation pattern := (list re_op).

(** [re.compile(raw, re.I)] on the fragment: [\b] and letters.  [None] stands
    for a pattern outside the fragment. *)
Fixpoint re_compile (raw : pystr) : option pattern :=
  match raw with
  | [] => Some []
  | c :: rest =>
      if c =? 92 then
        match rest with
        | c' :: rest' =>
            if c' =? 98 then cons AT_UNI_BOUNDARY <$> re_compile rest' else None
        | [] => None
        end
      else if plain_letter (ascii_tolower c)
      then cons (LITERAL_UNI_IGNORE (ascii_tolower c)) <$> re_compile rest
      else None
  end.

(** Every pattern of the program is in the fragment (see [patterns_compile]). *)
Definition compiled (raw : pystr) : pattern := default [] (re_compile raw).

Definition MISSPELLINGS_RAW : list pystr :=
  [ str "\bmbuemo\b";
    str "\bmbeuemo\b";
    str "\bmbeuomo\b";
    str "\bmbeuono\b";
    str "\bmbeoumo\b";
    str "\bmboomo\b";
    str "\bmbeemo\b";
    str "\bmbeuno\b";
    str "\bmeubomo\b";
    str "\bmboma\b";
    str "\bmbumeo\b";
    str "\bmbewmoe\b" ].

Definition MISSPELLINGS : list pattern := List.map compiled MISSPELLINGS_RAW.

Definition CORRECT_NAME : pystr := str "Mbeumo".

Definition STATS_PATH : pystr := str "/data/stats.json".

(** The words the misspelling patterns stand for, in list order. *)
Definition MISSPELLING_WORDS : list pystr :=
  [ str "mbuemo"; str "mbeuemo"; str "mbeuomo"; str "mbeuono"; str "mbeoumo";
    str "mboomo"; str "mbeemo"; str "mbeuno"; str "meubomo"; str "mboma";
    str "mbumeo"; str "mbewmoe" ].

(** A non-empty word of plain letters. *)
Definition plain_word (w : pystr) : bool :=
  match w with
  | [] => false
  | _ => forallb plain_letter w
  end.

(** The compiled form of [\bw\b] for a lower-case word [w]. *)
Definition word_pattern (w : pystr) : pattern :=
  AT_UNI_BOUNDARY :: List.map LITERAL_UNI_IGNORE w ++ [AT_UNI_BOUNDARY].

(** ** Python values and exceptions *)

(** The values [json.load] returns.  A [dict] is a finite map keyed by
    strings (insertion order is not modelled); a float is kept as its
    binary64 bit pattern. *)
Inductive pyval : Type :=
| PNone
| PBool (b : bool)
| PInt (z : Z)
| PFloat (bits : Z)
| PStr (s : pystr)
| PList (l : list pyval)
| PDict (d : gmap pystr pyval).

(** The subclasses of [Exception] the modelled operations raise. *)
Inductive exn_class : Type :=
| OSError | ValueError | TypeError | AttributeError | KeyError | RecursionError.

(** An exception: its class and [str(exc)]. *)
Record exn : Type := Exn { exn_class_of : exn_class; exn_str : pystr }.

(** ** The Python runtime

    What the program uses of the interpreter and its standard library
    without defining it. *)
Class PyRuntime : Type := {
  (** [Py_UNICODE_ISALNUM] and [Py_UNICODE_TOLOWER] outside ASCII *)
  unicode_isalnum : N -> bool;
  unicode_tolower : N -> N;
  (** outside ASCII only U+0130 and U+212A have an ASCII lower case, [i]
      and [k] *)
  unicode_tolower_range :
    forall c, 128 <= c ->
      128 <= unicode_tolower c \/ unicode_tolower c = 105 \/ unicode_tolower c = 107;
  (** [str.lower] on a string with a character outside ASCII *)
  unicode_str_lower : pystr -> pystr;
  (** [int] on a string with a character outside ASCII, or longer than the
      limit on integer string conversion *)
  int_other : pystr -> exn + Z;
  (** [x + 1] on a float *)
  float_succ : Z -> Z;
  (** the text of the interpreter's own errors, by class and operand *)
  interp_msg : exn_class -> pyval -> pystr;
  (** [json.loads] *)
  json_loads : pystr -> exn + pyval;
  (** [json.JSONEncoder(indent=2).iterencode]: the chunks produced and the
      error that ends the iteration, if any *)
  json_iterencode : pyval -> list pystr * option exn
}.

(** ** State and exceptions *)

(** A result: [inl e] raises [e], [inr a] returns [a]. *)
#[global] Instance res_ret : MRet (sum exn) := fun A a => inr a.

#[global] Instance res_bind : MBind (sum exn) := fun A B k r =>
  match r with
  | inr a => k a
  | inl e => inl e
  end.

(** A computation over a state [S]: it returns or raises, and leaves a
    state either way. *)
Definition M (S A : Type) : Type := S -> (exn + A) * S.

#[global] Instance M_ret {S} : MRet (M S) := fun A a s => (inr a, s).

#[global] Instance M_bind {S} : MBind (M S) := fun A B k m s =>
  match m s with
  | (inr a, s') => k a s'
  | (inl e, s') => (inl e, s')
  end.

Definition lift {S A} (r : exn + A) : M S A := fun s => (r, s).

(** [try: body / except Exception as e: handler e]: every modelled
    exception is an [Exception]. *)
Definition try_except {S A} (body : M S A) (handler : exn -> M S A) : M S A :=
  fun s =>
    match body s with
    | (inl e, s') => handler e s'
    | (inr a, s') => (inr a, s')
    end.

(** ** The world outside the process *)

(** The file at [STATS_PATH] as the process finds it. *)
Inductive file_state : Type :=
| Absent
| StatFails (e : exn)      (* the path cannot be examined: [stat] raises [e] *)
| Unreadable (e : exn)     (* it exists and cannot be opened for reading, as a
                              file the process may only write *)
| Corrupt (e : exn)        (* it exists; decoding what it holds raises [e] *)
| Content (text : pystr).

Record world : Type := World {
  file : file_state;
  (** the error [open("w")] raises, if any *)
  open_fault : option exn;
  (** [Some (n, e)]: the disk takes [n] more characters, then writing
      raises [e] *)
  write_fault : option (nat * exn);
  (** [Some e]: the umask withholds read permission from a file the process
      creates, and opening such a file to read raises [e] *)
  create_fault : option exn;
  (** [datetime.now(timezone.utc).isoformat()] *)
  now : pystr;
  (** the lines printed so far *)
  stdout : list pystr;
  (** [os.environ], after [load_dotenv()] *)
  environ : gmap pystr pystr
}.

Definition set_file (f : file_state) (w : world) : world :=
  World f (open_fault w) (write_fault w) (create_fault w) (now w) (stdout w) (environ w).

Definition set_write_fault (wf : option (nat * exn)) (w : world) : world :=
  World (file w) (open_fault w) wf (create_fault w) (now w) (stdout w) (environ w).

Definition print (line : pystr) : M world unit :=
  fun w => (inr tt, World (file w) (open_fault w) (write_fault w) (create_fault w)
                          (now w) (stdout w ++ [line]) (environ w)).

Definition utcnow_isoformat : M world pystr := fun w => (inr (now w), w).

(** [STATS_PATH.exists()]: false for a missing file, true for one that is
    there, readable or not.  When [stat] fails for another reason than a
    missing path, as on a directory the process may not search, [exists]
    lets the [OSError] through: up to Python 3.11 it ignores ENOENT,
    ENOTDIR, EBADF and ELOOP only. *)
Definition path_exists : M world bool :=
  fun w =>
    match file w with
    | Absent => (inr false, w)
    | StatFails e => (inl e, w)
    | _ => (inr true, w)
    end.

(** [with STATS_PATH.open() as f], and reading [f] to its end. *)
Definition open_read : M world pystr :=
  fun w =>
    match file w with
    | Content text => (inr text, w)
    | StatFails e | Unreadable e | Corrupt e => (inl e, w)
    | Absent =>
        (inl (Exn OSError (str "[Errno 2] No such file or directory: '" ++ STATS_PATH ++ str "'")), w)
    end.

(** The file [open("w")] creates. *)
Definition created (w : world) : file_state :=
  match create_fault w with
  | Some e => Unreadable e
  | None => Content []
  end.

(** [STATS_PATH.open("w")]: the file is created or truncated.  What it held
    is gone; an existing file keeps its permissions, so one that could not
    be opened for reading still cannot. *)
Definition open_write : M world unit :=
  fun w =>
    match open_fault w with
    | Some e => (inl e, w)
    | None =>
        match file w with
        | StatFails e => (inl e, w)
        | Unreadable e => (inr tt, w)
        | Absent => (inr tt, set_file (created w) w)
        | Corrupt _ | Content _ => (inr tt, set_file (Content []) w)
        end
    end.

(** Whether the file can be read once the process has written it: it is not
    write-only, and if the process has to create it the umask leaves it
    readable. *)
Definition readable_back (w : world) : bool :=
  match file w with
  | StatFails _ | Unreadable _ => false
  | Absent => match create_fault w with Some _ => false | None => true end
  | Corrupt _ | Content _ => true
  end.

(** The text file [f] of [with STATS_PATH.open("w") as f]: the disk, and the
    text written to [f] that has not reached it. *)
Record writer : Type := Writer { disk : world; buffered : pystr }.

(** [fp.write(chunk)]: the text goes to the buffer of [f] and the call
    returns.  A buffer that fills is flushed during a write; the disk then
    fails at the same character as it does at [close], with the same file
    and the same error as a result, so the flush is modelled once, in
    [fp_close]. *)
Definition fp_write (chunk : pystr) : M writer unit :=
  fun f => (inr tt, Writer (disk f) (buffered f ++ chunk)).

Fixpoint write_chunks (chunks : list pystr) : M writer unit :=
  match chunks with
  | [] => mret tt
  | chunk :: chunks' => fp_write chunk ;; write_chunks chunks'
  end.

(** The file after [text] reached the disk. *)
Definition append_text (text : pystr) (f : file_state) : file_state :=
  match f with
  | Content old => Content (old ++ text)
  | _ => f
  end.

(** [f.close()]: the buffer is flushed.  The disk takes the characters it
    has room for, and the call raises when that is not all of them: the
    file may end anywhere in the text. *)
Definition fp_close (f : writer) : (exn + unit) * world :=
  let w := disk f in
  let text := buffered f in
  match write_fault w with
  | Some (n, e) =>
      if (length text <=? n)%nat
      then (inr tt, set_write_fault (Some ((n - length text)%nat, e))
                      (set_file (append_text text (file w)) w))
      else (inl e, set_write_fault (Some (O, e))
                     (set_file (append_text (take n text) (file w)) w))
  | None => (inr tt, set_file (append_text text (file w)) w)
  end.

(** The block of a [with] on a file just opened: [f] is closed whether
    [body] returns or raises, and an error of [close] is the one that leaves
    the block. *)
Definition with_file {A} (body : M writer A) : M world A :=
  fun w =>
    let '(r, f) := body (Writer w []) in
    match fp_close f with
    | (inl e, w') => (inl e, w')
    | (inr _, w') => (r, w')
    end.

(** [with STATS_PATH.open("w") as f: body] *)
Definition with_open_write {A} (body : M writer A) : M world A :=
  open_write ;; with_file body.

(** ** Operations on values *)

Definition int_of (v : pyval) : option Z :=
  match v with
  | PInt z => Some z
  | PBool b => Some (Z.b2z b)     (* [bool] is a subclass of [int] *)
  | _ => None
  end.

(** One step of [sum]; [None] once a value is not an integer. *)
Definition add_count (v : pyval) (acc : option Z) : option Z :=
  a ← acc; z ← int_of v; Some (a + z)%Z.

(** [sum(d.values())] over integers. *)
Definition sum_values (d : gmap pystr pyval) : option Z :=
  map_fold (fun _ => add_count) (Some 0%Z) d.

(** [obj.get(key)] on a dict, [None] on anything else. *)
Definition field (obj : pyval) (key : pystr) : option pyval :=
  match obj with
  | PDict d => d !! key
  | _ => None
  end.

(** The dict literal at the end of [load_stats], at time [t]. *)
Definition default_stats (t : pystr) : gmap pystr pyval :=
  {[ str "start_time" := PStr t;
     str "total_corrections" := PInt 0;
     str "misspellings" := PDict ∅ ]}.

(** ASCII white space, as [int] strips it. *)
Definition is_space (c : N) : bool := ((9 <=? c) && (c <=? 13)) || (c =? 32).

Fixpoint lstrip (s : pystr) : pystr :=
  match s with
  | c :: s' => if is_space c then lstrip s' else s
  | [] => []
  end.

Definition strip (s : pystr) : pystr := rev (lstrip (rev (lstrip s))).

Definition digit_val (c : N) : option Z :=
  if (48 <=? c) && (c <=? 57) then Some (Z.of_N (c - 48)) else None.

(** Decimal digits, single underscores allowed between two of them. *)
Fixpoint parse_digits (s : pystr) (acc : Z) (after_digit : bool) : option Z :=
  match s with
  | [] => if after_digit then Some acc else None
  | c :: s' =>
      match digit_val c with
      | Some d => parse_digits s' (10 * acc + d)%Z true
      | None =>
          if (c =? 95) && after_digit then parse_digits s' acc false else None
      end
  end.

Definition parse_signed (s : pystr) : option Z :=
  match s with
  | c :: s' =>
      if c =? 45 then Z.opp <$> parse_digits s' 0%Z false
      else if c =? 43 then parse_digits s' 0%Z false
      else parse_digits s 0%Z false
  | [] => None
  end.

Section Bot.

Context {rt : PyRuntime}.

Definition raise_on {A} (cls : exn_class) (operand : pyval) : exn + A :=
  inl (Exn cls (interp_msg cls operand)).

(** [int(s)] for a [str]. *)
Definition py_int (s : pystr) : exn + Z :=
  if forallb is_ascii s && (length s <=? 4300)%nat then
    match parse_signed (strip s) with
    | Some z => inr z
    | None => raise_on ValueError (PStr s)
    end
  else int_other s.

(** [s.lower()] *)
Definition py_lower (s : pystr) : pystr :=
  if forallb is_ascii s then List.map ascii_tolower s else unicode_str_lower s.

(** [obj.setdefault(key, value)], as the object afterwards. *)
Definition py_setdefault (obj : pyval) (key : pystr) (value : pyval) : exn + pyval :=
  match obj with
  | PDict d =>
      match d !! key with
      | Some _ => inr (PDict d)
      | None => inr (PDict (<[key := value]> d))
      end
  | _ => raise_on AttributeError obj
  end.

(** [obj[key]] *)
Definition py_getitem (obj : pyval) (key : pystr) : exn + pyval :=
  match obj with
  | PDict d =>
      match d !! key with
      | Some v => inr v
      | None => raise_on KeyError (PStr key)
      end
  | _ => raise_on TypeError obj
  end.

(** [obj[key] = value], as the object afterwards. *)
Definition py_setitem (obj : pyval) (key : pystr) (value : pyval) : exn + pyval :=
  match obj with
  | PDict d => inr (PDict (<[key := value]> d))
  | _ => raise_on TypeError obj
  end.

(** [x + 1], the value [x += 1] stores. *)
Definition py_add1 (x : pyval) : exn + pyval :=
  match x with
  | PInt z => inr (PInt (z + 1))
  | PBool b => inr (PInt (Z.b2z b + 1))
  | PFloat f => inr (PFloat (float_succ f))
  | _ => raise_on TypeError x
  end.

(** ** The pattern matcher *)

Definition Py_UNICODE_ISALNUM (c : N) : bool :=
  if is_ascii c then ascii_isalnum c else unicode_isalnum c.

Definition Py_UNICODE_TOLOWER (c : N) : N :=
  if is_ascii c then ascii_tolower c else unicode_tolower c.

(** [\w] on a [str] pattern. *)
Definition SRE_UNI_IS_WORD (c : N) : bool :=
  Py_UNICODE_ISALNUM c || (c =? 95).

(** The character before or after a position, absent at either end. *)
Definition is_word_opt (c : option N) : bool :=
  from_option SRE_UNI_IS_WORD false c.

(** [SRE_AT_UNI_BOUNDARY]: [thisp != thatp]; on the empty string both are 0. *)
Definition at_uni_boundary (prev next : option N) : bool :=
  xorb (is_word_opt prev) (is_word_opt next).

(** Match [p] at one position: [prev] is the character before it, [rest] the
    text from it on.  The result is [m.group(0)]. *)
Fixpoint sre_match (p : pattern) (prev : option N) (rest : pystr) : option pystr :=
  match p with
  | [] => Some []
  | AT_UNI_BOUNDARY :: p' =>
      if at_uni_boundary prev (head rest) then sre_match p' prev rest else None
  | LITERAL_UNI_IGNORE lo :: p' =>
      match rest with
      | ch :: rest' =>
          if Py_UNICODE_TOLOWER ch =? lo
          then cons ch <$> sre_match p' (Some ch) rest'
          else None
      | [] => None
      end
  end.

(** Try each start position, left to right. *)
Fixpoint sre_search (p : pattern) (prev : option N) (rest : pystr) : option pystr :=
  match sre_match p prev rest with
  | Some m => Some m
  | None =>
      match rest with
      | ch :: rest' => sre_search p (Some ch) rest'
      | [] => None
      end
  end.

(** [pat.search(text)], as the matched substring. *)
Definition re_search (p : pattern) (text : pystr) : option pystr :=
  sre_search p None text.

(** The loop [for pat in MISSPELLINGS] of [find_misspelling]. *)
Fixpoint first_match (pats : list pattern) (text : pystr) : option pystr :=
  match pats with
  | [] => None
  | pat :: pats' =>
      match re_search pat text with
      | Some m => Some m
      | None => first_match pats' text
      end
  end.

Definition find_misspelling (text : pystr) : option pystr :=
  match re_search (compiled (str "\b" ++ CORRECT_NAME ++ str "\b")) text with
  | Some _ => None
  | None => first_match MISSPELLINGS text
  end.

(** ** The stats store *)

Definition json_dump (obj : pyval) : M writer unit :=
  let '(chunks, err) := json_iterencode obj in
  write_chunks chunks ;;
  match err with
  | Some e => lift (inl e)
  | None => mret tt
  end.

(** What [json.dump] raised, if it did. *)
Definition dump_result (obj : pyval) : exn + unit :=
  match (json_iterencode obj).2 with
  | Some e => inl e
  | None => inr tt
  end.

Definition fresh_stats : M world pyval :=
  t ← utcnow_isoformat;
  mret (PDict (default_stats t)).

(** The [try] block of [load_stats]; [None] is the fall-through of
    [except Exception: pass]. *)
Definition load_stats_try : M world (option pyval) :=
  try_except
    (text ← open_read;
     data ← lift (json_loads text);
     t ← utcnow_isoformat;
     data ← lift (py_setdefault data (str "start_time") (PStr t));
     data ← lift (py_setdefault data (str "total_corrections") (PInt 0));
     data ← lift (py_setdefault data (str "misspellings") (PDict ∅));
     mret (Some data))
    (fun _ => mret None).

Definition load_stats : M world pyval :=
  present ← path_exists;
  loaded ← (if (present : bool) then load_stats_try else mret None);
  match loaded with
  | Some data => mret data
  | None => fresh_stats
  end.

(** The [try] block of [save_stats]. *)
Definition write_stats (stats : pyval) : M world unit :=
  with_open_write (json_dump stats).

Definition save_stats (stats : pyval) : M world unit :=
  try_except (write_stats stats)
    (fun exc => print (str "[STATS] Failed to save: " ++ exn_str exc)).

(** Lines 157-159 of [main], on the global [STATS]: the dict under
    ["misspellings"] is updated in place, which the model writes back. *)
Definition record_correction (misspelling : pystr) : M pyval unit :=
  fun STATS =>
    match (total ← py_getitem STATS (str "total_corrections");
           total' ← py_add1 total;
           py_setitem STATS (str "total_corrections") total') with
    | inl e => (inl e, STATS)
    | inr STATS1 =>
        match (counts ← py_getitem STATS1 (str "misspellings");
               counts' ← py_setdefault counts (py_lower misspelling) (PInt 0);
               py_setitem STATS1 (str "misspellings") counts') with
        | inl e => (inl e, STATS1)
        | inr STATS2 =>
            match (counts ← py_getitem STATS2 (str "misspellings");
                   count ← py_getitem counts (py_lower misspelling);
                   count' ← py_add1 count;
                   counts' ← py_setitem counts (py_lower misspelling) count';
                   py_setitem STATS2 (str "misspellings") counts') with
            | inl e => (inl e, STATS2)
            | inr STATS3 => (inr tt, STATS3)
            end
        end
    end.

(** A run of corrections, one per misspelling found. *)
Fixpoint record_corrections (found : list pystr) : M pyval unit :=
  match found with
  | [] => mret tt
  | misspelling :: found' => record_correction misspelling ;; record_corrections found'
  end.

(** ** Configuration: lines 103-106 of [main] *)

Definition POLL_WARNING : pystr :=
  str "[WARN] POLL_INTERVAL_SECONDS too low; setting to 10s to respect API.".

(** [os.getenv(name, default)] *)
Definition getenv (name fallback : pystr) : M world pystr :=
  fun w => (inr (default fallback (environ w !! name)), w).

Definition poll_interval_setup : M world Z :=
  raw ← getenv (str "POLL_INTERVAL_SECONDS") (str "60");
  poll_interval ← lift (py_int raw);
  if (poll_interval <? 10)%Z then
    print POLL_WARNING ;;
    mret 10%Z
  else mret poll_interval.

(** ** Whole words, as the specification speaks of them *)

(** [s] is [w] in some casing. *)
Definition any_casing (w s : pystr) : Prop :=
  List.map ascii_tolower s = List.map ascii_tolower w.

(** [text] is [pre ++ s ++ post], where [s] is [w] in some casing and the
    characters next to [s], if any, are not word characters. *)
Definition whole_word_at (w text pre s post : pystr) : Prop :=
  text = pre ++ s ++ post /\ any_casing w s /\
  is_word_opt (last pre) = false /\ is_word_opt (head post) = false.

Definition contains_whole_word (w text : pystr) : Prop :=
  exists pre s post, whole_word_at w text pre s post.

(** The occurrence of [w] that starts first. *)
Definition leftmost_whole_word (w text pre s post : pystr) : Prop :=
  whole_word_at w text pre s post /\
  forall pre' s' post', whole_word_at w text pre' s' post' -> (length pre <= length pre')%nat.

(** The character before a position reached by reading [s] after [prev]. *)
Definition last_or (prev : option N) (s : pystr) : option N :=
  match last s with
  | Some c => Some c
  | None => prev
  end.

End Bot.

(** ** Stats, as the specification speaks of them *)

(** The total and the per-misspelling counts of a stats dict. *)
Definition counts_of (stats : pyval) : option (Z * gmap pystr pyval) :=
  match stats with
  | PDict d =>
      match d !! str "total_corrections", d !! str "misspellings" with
      | Some t, Some (PDict counts) => total ← int_of t; Some (total, counts)
      | _, _ => None
      end
  | _ => None
  end.

(** [total_corrections == sum(misspellings.values())] *)
Definition stats_consistent (stats : pyval) : Prop :=
  exists total counts,
    counts_of stats = Some (total, counts) /\ sum_values counts = Some total.

(** The total is an integer and every count is one. *)
Definition stats_typed (stats : pyval) : Prop :=
  exists total counts,
    counts_of stats = Some (total, counts) /\
    forall k v, counts !! k = Some v -> is_Some (int_of v).

(** The count of [key], 0 when it has none. *)
Definition count_at (counts : gmap pystr pyval) (key : pystr) : Z :=
  default 0%Z (counts !! key ≫= int_of).

(** The stats dict after one correction under [key]. *)
Definition bumped (d : gmap pystr pyval) (total : Z) (counts : gmap pystr pyval)
    (key : pystr) : gmap pystr pyval :=
  <[str "misspellings" := PDict (<[key := PInt (count_at counts key + 1)]> counts)]>
    (<[str "total_corrections" := PInt (total + 1)]> d).

(** [d.setdefault(key, value)] on a dict. *)
Definition with_default (key : pystr) (value : pyval) (d : gmap pystr pyval)
    : gmap pystr pyval :=
  match d !! key with
  | Some _ => d
  | None => <[key := value]> d
  end.

(** A loaded dict after the three [setdefault] calls of [load_stats]. *)
Definition merged (t : pystr) (d : gmap pystr pyval) : gmap pystr pyval :=
  with_default (str "misspellings") (PDict ∅)
    (with_default (str "total_corrections") (PInt 0)
       (with_default (str "start_time") (PStr t) d)).

(** ** The JSON codec, as a round trip relies on it *)

(** A value that holds no float. *)
Inductive json_exact : pyval -> Prop :=
| exact_none : json_exact PNone
| exact_bool b : json_exact (PBool b)
| exact_int z : json_exact (PInt z)
| exact_str s : json_exact (PStr s)
| exact_list l : Forall json_exact l -> json_exact (PList l)
| exact_dict d :
    (forall k v, d !! k = Some v -> json_exact v) -> json_exact (PDict d).

(** [json.load] gives back what [json.dump] wrote, for a value without
    floats: the keys of a dict are strings here, and integers and strings
    are written in full. *)
Class JsonRoundTrip (rt : PyRuntime) : Prop :=
  json_round_trip : forall v chunks,
    json_exact v -> json_iterencode v = (chunks, None) ->
    json_loads (concat chunks) = inr v.

(** ** A small runtime

    An instance of [PyRuntime] that knows ASCII only, with a JSON codec for
    dicts of integers, plain strings and such dicts.  It runs the program on
    concrete inputs. *)

Fixpoint dec_of_N_fuel (fuel : nat) (n : N) (acc : pystr) : pystr :=
  match fuel with
  | O => acc
  | S fuel' =>
      let acc' := (48 + n mod 10) :: acc in
      if n / 10 =? 0 then acc' else dec_of_N_fuel fuel' (n / 10) acc'
  end.

Definition dec_of_Z (z : Z) : pystr :=
  let n := Z.to_N (Z.abs z) in
  let digits := dec_of_N_fuel (S (N.to_nat (N.log2 n))) n [] in
  if (z <? 0)%Z then 45 :: digits else digits.

(** A character a JSON string holds as it is. *)
Definition plain_char (c : N) : bool :=
  (32 <=? c) && (c <? 127) && negb (c =? 34) && negb (c =? 92).

Definition quoted (s : pystr) : option pystr :=
  if forallb plain_char s then Some (34 :: s ++ [34]) else None.

Definition mini_scalar (v : pyval) : option pystr :=
  match v with
  | PNone => Some (str "null")
  | PBool true => Some (str "true")
  | PBool false => Some (str "false")
  | PInt z => Some (dec_of_Z z)
  | PStr s => quoted s
  | _ => None
  end.

Fixpoint join_lines (sep : pystr) (items : list pystr) : pystr :=
  match items with
  | [] => []
  | [item] => item
  | item :: items' => item ++ sep ++ join_lines sep items'
  end.

Definition mini_dict (inner outer : pystr) (enc : pyval -> option pystr)
    (d : gmap pystr pyval) : option pystr :=
  match map_to_list d with
  | [] => Some (str "{}")
  | kvs =>
      items ← mapM (fun kv : pystr * pyval =>
                      k ← quoted kv.1; e ← enc kv.2;
                      Some (inner ++ k ++ str ": " ++ e)) kvs;
      Some (str "{" ++ [10] ++ join_lines (str "," ++ [10]) items
              ++ [10] ++ outer ++ str "}")
  end.

Definition mini_encode (v : pyval) : option pystr :=
  match v with
  | PDict d =>
      mini_dict (str "  ") []
        (fun v' => match v' with
                   | PDict d' => mini_dict (str "    ") (str "  ") mini_scalar d'
                   | _ => mini_scalar v'
                   end) d
  | _ => mini_scalar v
  end.

Definition mini_iterencode (v : pyval) : list pystr * option exn :=
  match mini_encode v with
  | Some text => ([text], None)
  | None => ([], Some (Exn TypeError (str "Object is not JSON serializable")))
  end.

Definition is_json_ws (c : N) : bool :=
  (c =? 32) || (c =? 10) || (c =? 13) || (c =? 9).

Fixpoint skip_ws (s : pystr) : pystr :=
  match s with
  | c :: s' => if is_json_ws c then skip_ws s' else s
  | [] => []
  end.

(** After the opening quote: the string and what follows its closing quote. *)
Fixpoint parse_string_body (s acc : pystr) : option (pystr * pystr) :=
  match s with
  | [] => None
  | c :: s' =>
      if c =? 34 then Some (rev acc, s')
      else if plain_char c then parse_string_body s' (c :: acc)
      else None
  end.

Fixpoint span_digits (s : pystr) (acc : Z) (seen : bool) : option (Z * pystr) :=
  match s with
  | c :: s' =>
      match digit_val c with
      | Some d => span_digits s' (10 * acc + d)%Z true
      | None => if seen then Some (acc, s) else None
      end
  | [] => if seen then Some (acc, []) else None
  end.

Definition strip_prefix (p s : pystr) : option pystr :=
  if decide (take (length p) s = p) then Some (drop (length p) s) else None.

Fixpoint mini_parse (fuel : nat) (s : pystr) : option (pyval * pystr) :=
  match fuel with
  | O => None
  | S fuel' =>
      match skip_ws s with
      | [] => None
      | c :: s1 =>
          if c =? 123 then
            match skip_ws s1 with
            | c2 :: s2 =>
                if c2 =? 125 then Some (PDict ∅, s2)
                else mini_members fuel' (c2 :: s2) ∅
            | [] => None
            end
          else if c =? 34 then
            ks ← parse_string_body s1 []; Some (PStr ks.1, ks.2)
          else if c =? 45 then
            zs ← span_digits s1 0%Z false; Some (PInt (- zs.1), zs.2)
          else
            match strip_prefix (str "null") (c :: s1),
                  strip_prefix (str "true") (c :: s1),
                  strip_prefix (str "false") (c :: s1) with
            | Some r, _, _ => Some (PNone, r)
            | _, Some r, _ => Some (PBool true, r)
            | _, _, Some r => Some (PBool false, r)
            | _, _, _ => zs ← span_digits (c :: s1) 0%Z false; Some (PInt zs.1, zs.2)
            end
      end
  end
with mini_members (fuel : nat) (s : pystr) (acc : gmap pystr pyval)
    : option (pyval * pystr) :=
  match fuel with
  | O => None
  | S fuel' =>
      match skip_ws s with
      | c :: s1 =>
          if c =? 34 then
            ks ← parse_string_body s1 [];
            match skip_ws ks.2 with
            | c3 :: s3 =>
                if c3 =? 58 then
                  vs ← mini_parse fuel' s3;
                  match skip_ws vs.2 with
                  | c5 :: s5 =>
                      if c5 =? 44 then mini_members fuel' s5 (<[ks.1 := vs.1]> acc)
                      else if c5 =? 125 then Some (PDict (<[ks.1 := vs.1]> acc), s5)
                      else None
                  | [] => None
                  end
                else None
            | [] => None
            end
          else None
      | [] => None
      end
  end.

Definition mini_loads (s : pystr) : exn + pyval :=
  match mini_parse (S (length s)) s with
  | Some (v, rest) =>
      match skip_ws rest with
      | [] => inr v
      | _ => inl (Exn ValueError (str "Extra data"))
      end
  | None => inl (Exn ValueError (str "Expecting value"))
  end.

Definition ascii_runtime : PyRuntime := {|
  unicode_isalnum := fun _ => false;
  unicode_tolower := fun c => c;
  unicode_tolower_range := fun c H => or_introl H;
  unicode_str_lower := List.map ascii_tolower;
  int_other := fun _ => inl (Exn ValueError (str "invalid literal for int() with base 10"));
  float_succ := fun bits => bits;
  interp_msg := fun _ _ => [];
  json_loads := mini_loads;
  json_iterencode := mini_iterencode
|}.

(** ** The text of the small codec, as its parser reads it *)

(** The value of a run of decimal digits read after [a]. *)
Definition digits_value (ds : pystr) (a : Z) : Z :=
  fold_left (fun a c => (10 * a + Z.of_N (c - 48))%Z) ds a.

(** A decimal digit. *)
Definition is_digit (c : N) : bool := (48 <=? c) && (c <=? 57).

(** A text at which a number ends: it does not go on with a digit. *)
Definition ends_number (rest : pystr) : Prop :=
  match rest with
  | c :: _ => is_digit c = false
  | [] => True
  end.

(** An encoder whose text the parser reads back, whatever follows it. *)
Definition parses_back (enc : pyval -> option pystr) : Prop :=
  forall v e rest f,
    enc v = Some e -> ends_number rest -> (length (e ++ rest) < f)%nat ->
    mini_parse f (e ++ rest) = Some (v, rest).

(** The dict the parser builds from the members it reads, in order. *)
Definition insert_all (kvs : list (pystr * pyval)) (acc : gmap pystr pyval)
    : gmap pystr pyval :=
  fold_left (fun acc kv => <[kv.1 := kv.2]> acc) kvs acc.

(** One member of a dict, as [mini_dict] writes it. *)
Definition mini_member (inner : pystr) (enc : pyval -> option pystr)
    (kv : pystr * pyval) : option pystr :=
  k ← quoted kv.1; e ← enc kv.2; Some (inner ++ k ++ str ": " ++ e).

(** A world with a writable disk and nothing printed yet. *)
Definition quiet_world (f : file_state) (env : gmap pystr pystr) : world :=
  World f None None None (str "2025-01-01T00:00:00+00:00") [] env.

Definition sample_stats : pyval :=
  PDict {[ str "start_time" := PStr (str "2024-12-31T09:30:00+00:00");
           str "total_corrections" := PInt 3;
           str "misspellings" :=
             PDict {[ str "mbuemo" := PInt 2; str "mboma" := PInt 1 ]} ]}.

(** A file that holds one of the three keys: [{"total_corrections": 7}]. *)
Definition partial_file_text : pystr :=
  str "{" ++ [34] ++ str "total_corrections" ++ [34] ++ str ": 7}".

(** A disk on which the file cannot be opened for writing. *)
Definition read_only_world : world :=
  World Absent
    (Some (Exn OSError (str "[Errno 13] Permission denied: '" ++ STATS_PATH ++ str "'")))
    None None (str "2025-01-01T00:00:00+00:00") [] ∅.

(** A disk with room for ten more characters. *)
Definition full_disk_world : world :=
  World Absent None
    (Some (10%nat, Exn OSError (str "[Errno 28] No space left on device")))
    None (str "2025-01-01T00:00:00+00:00") [] ∅.

(** A data directory the process may not search: [stat] on the file fails. *)
Definition locked_world : world :=
  quiet_world
    (StatFails (Exn OSError (str "[Errno 13] Permission denied: '" ++ STATS_PATH ++ str "'")))
    ∅.

(** A file the process may write and not read. *)
Definition write_only_world : world :=
  quiet_world
    (Unreadable (Exn OSError (str "[Errno 13] Permission denied: '" ++ STATS_PATH ++ str "'")))
    ∅.

(** ** The reply text *)

Definition REPLY_TEMPLATE : pystr :=
  ([240; 376; 8216; 8249] ++ str " Just a quick heads" ++ [226; 8364; 8216] ++ str "up "
     ++ [226; 8364; 8221] ++ str " I think you meant **{correct}**, not "
     ++ [226; 8364; 339] ++ str "{found}" ++ [226; 8364] ++ str ". ")
  ++ ([10; 10] ++ str "---" ++ [10; 10]
        ++ str "*^(If you want to know how to pronounce em-ber-mo's name [here is a Youtube link](https://youtube.com/shorts/pocySXnRwl8?si=2a0UE1vqdANWHT6Q) ")
  ++ str "of him saying it)*".

(** A character of a replacement field's name. *)
Definition field_char (c : N) : bool := ascii_isalnum c || (c =? 95).

(** [template.format] with keyword arguments, on the fragment of literal text, doubled
    braces and named fields [{name}]; [field] is the name being read.
    [None] stands for a template outside the fragment, or a field that
    [kwargs] lacks. *)
Fixpoint str_format_from (template : pystr) (field : option pystr)
    (kwargs : gmap pystr pystr) : option pystr :=
  match template with
  | [] =>
      match field with
      | None => Some []
      | Some _ => None
      end
  | c :: rest =>
      match field with
      | None =>
          if c =? 123 then
            match rest with
            | c' :: rest' =>
                if c' =? 123 then cons 123 <$> str_format_from rest' None kwargs
                else str_format_from rest (Some []) kwargs
            | [] => None
            end
          else if c =? 125 then
            match rest with
            | c' :: rest' =>
                if c' =? 125 then cons 125 <$> str_format_from rest' None kwargs
                else None
            | [] => None
            end
          else cons c <$> str_format_from rest None kwargs
      | Some name =>
          if c =? 125 then
            match name with
            | [] => None
            | _ => value ← kwargs !! rev name;
                   app value <$> str_format_from rest None kwargs
            end
          else if field_char c then str_format_from rest (Some (c :: name)) kwargs
          else None
      end
  end.

Definition str_format (template : pystr) (kwargs : gmap pystr pystr) : option pystr :=
  str_format_from template None kwargs.

(** [REPLY_TEMPLATE.format(correct=CORRECT_NAME, found=misspelling)]; the
    template is in the fragment and names these two fields only (see
    [reply_text_parts]). *)
Definition reply_text (misspelling : pystr) : pystr :=
  default [] (str_format REPLY_TEMPLATE
                {[ str "correct" := CORRECT_NAME; str "found" := misspelling ]}).

(** The reply around its two fields. *)
Definition REPLY_BEFORE_CORRECT : pystr :=
  [240; 376; 8216; 8249] ++ str " Just a quick heads" ++ [226; 8364; 8216] ++ str "up "
    ++ [226; 8364; 8221] ++ str " I think you meant **".

Definition REPLY_BEFORE_FOUND : pystr := str "**, not " ++ [226; 8364; 339].

Definition REPLY_AFTER_FOUND : pystr :=
  [226; 8364] ++ str ". " ++ [10; 10] ++ str "---" ++ [10; 10]
    ++ str "*^(If you want to know how to pronounce em-ber-mo's name [here is a Youtube link](https://youtube.com/shorts/pocySXnRwl8?si=2a0UE1vqdANWHT6Q) "
    ++ str "of him saying it)*".

(** ** Strings: [in] and [replace] *)

Fixpoint starts_with (prefix s : pystr) : bool :=
  match prefix, s with
  | [], _ => true
  | a :: prefix', b :: s' => (a =? b) && starts_with prefix' s'
  | _ :: _, [] => false
  end.

(** [needle in hay] *)
Fixpoint str_in (needle hay : pystr) : bool :=
  starts_with needle hay ||
  match hay with
  | [] => false
  | _ :: hay' => str_in needle hay'
  end.

(** [s.replace(old, new)] for one-character [old] and [new]. *)
Definition replace_char (old new : N) (s : pystr) : pystr :=
  List.map (fun c => if c =? old then new else c) s.

(** [s.split(sep)] for a one-character [sep]. *)
Fixpoint split_on (sep : N) (s : pystr) : list pystr :=
  match s with
  | [] => [[]]
  | c :: s' =>
      if c =? sep then [] :: split_on sep s'
      else match split_on sep s' with
           | piece :: pieces => (c :: piece) :: pieces
           | [] => [[c]]
           end
  end.

(** The variables [main] reads with [os.environ[...]], in order. *)
Definition REQUIRED_ENV : list pystr :=
  [ str "REDDIT_CLIENT_ID"; str "REDDIT_CLIENT_SECRET"; str "REDDIT_AUTHOR_USERNAME";
    str "REDDIT_USERNAME"; str "REDDIT_PASSWORD" ].

(** A character [int] accepts somewhere in a decimal literal. *)
Definition int_char (c : N) : bool :=
  ((48 <=? c) && (c <=? 57)) || (c =? 95) || (c =? 43) || (c =? 45) || is_space c.

(** ** Text of values *)

(** [str] of the values the program formats but does not build. *)
Class PyText : Type := {
  (** [repr] of a float *)
  float_repr : Z -> pystr;
  (** [repr] of a list or a dict *)
  container_repr : pyval -> pystr
}.

(** A replacement field [{v}] of an f-string. *)
Definition py_str {tx : PyText} (v : pyval) : pystr :=
  match v with
  | PNone => str "None"
  | PBool true => str "True"
  | PBool false => str "False"
  | PInt z => dec_of_Z z
  | PFloat bits => float_repr bits
  | PStr s => s
  | PList _ | PDict _ => container_repr v
  end.

(** ** Reddit, as the loop uses it *)

(** A comment of the stream, with what its methods will do. *)
Record comment : Type := Comment {
  (** [comment.author.name]; [None] when [comment.author] is [None] *)
  author : option pystr;
  body : pystr;
  (** [comment.submission.title]: fetching it may raise; the title may be
      [None] *)
  submission_title : exn + option pystr;
  saved : bool;
  (** the errors [comment.reply] and [comment.save] raise, if any *)
  reply_fault : option exn;
  save_fault : option exn
}.

(** What the process did to the outside, in order. *)
Inductive action : Type :=
| Reply (c : comment) (text : pystr)
| MarkSaved (c : comment)
| Sleep (seconds : Z).

(** The process: the global [STATS], the world, the actions so far. *)
Record bot : Type := Bot {
  stats : pyval;
  outside : world;
  did : list action
}.

Definition on_stats {A} (m : M pyval A) : M bot A :=
  fun b => let '(r, s) := m (stats b) in (r, Bot s (outside b) (did b)).

Definition on_world {A} (m : M world A) : M bot A :=
  fun b => let '(r, w) := m (outside b) in (r, Bot (stats b) w (did b)).

Definition perform (a : action) : M bot unit :=
  fun b => (inr tt, Bot (stats b) (outside b) (did b ++ [a])).

Definition get_stats : M bot pyval := fun b => (inr (stats b), b).

(** [comment.reply(text)] *)
Definition comment_reply (c : comment) (text : pystr) : M bot unit :=
  match reply_fault c with
  | Some e => lift (inl e)
  | None => perform (Reply c text)
  end.

(** [comment.save()] *)
Definition comment_save (c : comment) : M bot unit :=
  match save_fault c with
  | Some e => lift (inl e)
  | None => perform (MarkSaved c)
  end.

(** [time.sleep(seconds)] *)
Definition time_sleep (seconds : Z) : M bot unit := perform (Sleep seconds).

(** What the comment stream hands to the [for] loop. *)
Inductive stream_event : Type :=
| Item (c : comment) (me : exn + pystr)   (* a comment; [me]: [reddit.user.me().name] *)
| CaughtUp                                (* [None]: no new comment *)
| StreamRaises (e : exn)
| StreamEnds.                             (* the iterator is exhausted *)

(** The line [print]ed by the [except] clause of the loop. *)
Definition error_line (exc : exn) : pystr :=
  str "[ERROR] " ++ exn_str exc ++ str ". Sleeping 60" ++ [194; 160] ++ str "s"
    ++ [226; 8364; 166].

Definition SHUTDOWN_LINE : pystr :=
  [10] ++ str "[BOT] Shutting down " ++ [226; 8364; 8220] ++ str " saving stats"
    ++ [226; 8364; 166].

Section Loop.

Context {rt : PyRuntime} {tx : PyText}.

(** Line 135: [STATS.setdefault("misspellings", {})]. *)
Definition ensure_misspellings : M pyval unit :=
  fun STATS =>
    match py_setdefault STATS (str "misspellings") (PDict ∅) with
    | inl e => (inl e, STATS)
    | inr STATS' => (inr tt, STATS')
    end.

(** Lines 137-141: [true] lets the comment through.  The filter applies
    when [LIMIT_TO_SUBMISSION_TITLED] is neither [None] nor empty. *)
Definition title_allows (limit : option pystr) (c : comment) : exn + bool :=
  match limit with
  | Some (ch :: limit') =>
      title ← submission_title c;
      let thread_title := py_lower (default [] title) in
      mret (str_in (py_lower (ch :: limit')) thread_title)
  | _ => mret true
  end.

(** Line 144: the comment is the bot's own. *)
Definition is_self (c : comment) (me : exn + pystr) : exn + bool :=
  match author c with
  | Some name => me_name ← me; mret (bool_decide (py_lower name = py_lower me_name))
  | None => mret false
  end.

(** The line [print]ed after a correction. *)
Definition corrected_line (misspelling : pystr) (total : pyval) : pystr :=
  str "[BOT] Corrected '" ++ misspelling ++ str "' (total corrections: "
    ++ py_str total ++ str ")".

(** Lines 151-164: reply, mark, count, persist, log. *)
Definition correct_comment (c : comment) (misspelling : pystr) : M bot unit :=
  comment_reply c (reply_text misspelling) ;;
  comment_save c ;;
  on_stats (record_correction misspelling) ;;
  STATS ← get_stats;
  on_world (save_stats STATS) ;;
  total ← lift (py_getitem STATS (str "total_corrections"));
  on_world (print (corrected_line misspelling total)).

(** Lines 135-164, the body of the [for] loop for a comment; a [continue]
    is a return. *)
Definition handle_comment (limit : option pystr) (c : comment) (me : exn + pystr)
    : M bot unit :=
  on_stats ensure_misspellings ;;
  allowed ← lift (title_allows limit c);
  if negb allowed then mret tt
  else
    self ← lift (is_self c me);
    if (self : bool) then mret tt
    else
      match find_misspelling (body c) with
      | None => mret tt
      | Some misspelling =>
          if saved c then mret tt else correct_comment c misspelling
      end.

(** Lines 166-168, the [except] clause. *)
Definition on_error (exc : exn) : M bot unit :=
  on_world (print (error_line exc)) ;; time_sleep 60.

(** One item of the stream, inside the [try] of the [while] loop. *)
Definition poll_step (poll_interval : Z) (limit : option pystr) (ev : stream_event)
    : M bot unit :=
  try_except
    match ev with
    | Item c me => handle_comment limit c me
    | CaughtUp => time_sleep poll_interval
    | StreamRaises e => lift (inl e)
    | StreamEnds => mret tt
    end
    on_error.

(** The [while True] loop over the items the stream hands out. *)
Fixpoint run_events (poll_interval : Z) (limit : option pystr)
    (events : list stream_event) : M bot unit :=
  match events with
  | [] => mret tt
  | ev :: events' => poll_step poll_interval limit ev ;; run_events poll_interval limit events'
  end.

(** [graceful_exit]: the result is the status given to [sys.exit]. *)
Definition graceful_exit (STATS : pyval) : M world Z :=
  print SHUTDOWN_LINE ;;
  save_stats STATS ;;
  mret 0%Z.

(** [os.environ[name]] *)
Definition environ_item (name : pystr) : M world pystr :=
  fun w =>
    match environ w !! name with
    | Some value => (inr value, w)
    | None => (raise_on KeyError (PStr name), w)
    end.

(** Lines 95-101: the arguments of [praw.Reddit], in the order they are
    evaluated. *)
Definition read_credentials : M world (list pystr) :=
  client_id ← environ_item (str "REDDIT_CLIENT_ID");
  client_secret ← environ_item (str "REDDIT_CLIENT_SECRET");
  author_name ← environ_item (str "REDDIT_AUTHOR_USERNAME");
  username ← environ_item (str "REDDIT_USERNAME");
  password ← environ_item (str "REDDIT_PASSWORD");
  mret [client_id; client_secret;
        str "mbeumobot (by u/" ++ author_name
          ++ str ") - https://github.com/ccameronmills/mbeumo-bot";
        username; password].

(** Line 108: the subreddit names, joined with [+]. *)
Definition subreddit_names_setup : M world pystr :=
  names ← getenv (str "SUBREDDITS") (str "reddevils");
  mret (replace_char 44 43 names).

(** The line [print]ed at line 111. *)
Definition banner_line (subreddit_names : pystr) (poll_interval : Z) (total : pyval)
    : pystr :=
  str "[BOT] Watching r/" ++ subreddit_names ++ str " every " ++ dec_of_Z poll_interval
    ++ str "s. " ++ str "Corrections so far: " ++ py_str total ++ str ".".

(** Lines 93-114 of [main], with [STATS] as loaded: the configuration is
    read and the banner printed.  Building the [praw] objects is left out. *)
Definition main_setup (STATS : pyval) : M world (Z * pystr) :=
  read_credentials ;;
  poll_interval ← poll_interval_setup;
  subreddit_names ← subreddit_names_setup;
  total ← lift (py_getitem STATS (str "total_corrections"));
  print (banner_line subreddit_names poll_interval total) ;;
  mret (poll_interval, subreddit_names).

End Loop.

(** The comments marked as saved, and the replies, among some actions. *)
Definition count_marks (acts : list action) : nat :=
  length (List.filter (fun a => match a with MarkSaved _ => true | _ => false end) acts).

Definition count_replies (acts : list action) : nat :=
  length (List.filter (fun a => match a with Reply _ _ => true | _ => false end) acts).

(** The comment is the bot's own: its author's name is the bot's, up to case. *)
Definition own_comment {rt : PyRuntime} (c : comment) (me : exn + pystr) : Prop :=
  exists name me_name,
    author c = Some name /\ me = inr me_name /\ py_lower name = py_lower me_name.

(** The thread passes the title filter: no filter is set, or the title,
    lower-cased, contains the filter, lower-cased. *)
Definition thread_allowed {rt : PyRuntime} (limit : option pystr) (c : comment) : Prop :=
  forall wanted, limit = Some wanted -> wanted <> [] ->
    exists title before after,
      submission_title c = inr title /\
      py_lower (default [] title) = before ++ py_lower wanted ++ after.

(** The three keys every stats dict of the program holds. *)
Definition has_stats_keys (obj : pyval) : Prop :=
  is_Some (field obj (str "start_time")) /\
  is_Some (field obj (str "total_corrections")) /\
  is_Some (field obj (str "misspellings")).

(** [obj'] holds every key [obj] holds. *)
Definition keeps_keys (obj obj' : pyval) : Prop :=
  forall key, is_Some (field obj key) -> is_Some (field obj' key).

(** What a run of the loop keeps true of consistent stats; [new] are the
    actions it added, [total] the total it started from. *)
Definition kept (p : Z) (b b' : bot) (total : Z) (new : list action) : Prop :=
  did b' = did b ++ new /\
  (exists counts',
     counts_of (stats b') = Some ((total + Z.of_nat (count_marks new))%Z, counts') /\
     sum_values counts' = Some (total + Z.of_nat (count_marks new))%Z) /\
  (count_marks new <= count_replies new)%nat /\
  (forall seconds, Sleep seconds ∈ new -> seconds = p \/ seconds = 60%Z).

(** A text runtime for concrete runs. *)
Definition ascii_text : PyText := {|
  float_repr := fun _ => str "0.0";
  container_repr := fun _ => str "{}"
|}.

(** ** Sample comments and processes *)

(** A comment with a misspelling, in a match thread. *)
Definition due_comment : comment :=
  Comment (Some (str "fan_1")) (str "What a goal by Mbuemo!")
    (inr (Some (str "Match Thread: Brentford v United"))) false None None.

(** The same comment, when marking it as saved fails. *)
Definition flaky_comment : comment :=
  Comment (Some (str "fan_1")) (str "What a goal by Mbuemo!")
    (inr (Some (str "Match Thread: Brentford v United"))) false None
    (Some (Exn OSError (str "received 503 HTTP response"))).

Definition sample_bot : bot := Bot sample_stats (quiet_world Absent ∅) [].

(** Stats whose counts are not a dict, as a file with a null would load. *)
Definition broken_stats : pyval :=
  PDict {[ str "total_corrections" := PInt 3; str "misspellings" := PNone ]}.

(** A world with the five credentials, an interval of 5 and two subreddits. *)
Definition configured_world : world :=
  quiet_world Absent
    {[ str "REDDIT_CLIENT_ID" := str "id";
       str "REDDIT_CLIENT_SECRET" := str "secret";
       str "REDDIT_AUTHOR_USERNAME" := str "author";
       str "REDDIT_USERNAME" := str "mbeumo_bot";
       str "REDDIT_PASSWORD" := str "password";
       str "POLL_INTERVAL_SECONDS" := str "5";
       str "SUBREDDITS" := str "reddevils,soccer" ]}.

(** * Proofs *)

Ltac n_cases :=
  repeat match goal with
  | |- context [N.leb ?a ?b] => destruct (N.leb_spec a b)
  | |- context [N.ltb ?a ?b] => destruct (N.ltb_spec a b)
  | |- context [N.eqb ?a ?b] => destruct (N.eqb_spec a b)
  | H : context [N.leb ?a ?b] |- _ => destruct (N.leb_spec a b)
  | H : context [N.ltb ?a ?b] |- _ => destruct (N.ltb_spec a b)
  | H : context [N.eqb ?a ?b] |- _ => destruct (N.eqb_spec a b)
  end; simpl in *; try congruence; try lia.

Section Matcher_facts.
Context {rt : PyRuntime}.

Lemma tolower_plain (l c : N) :
  plain_letter l = true ->
  (Py_UNICODE_TOLOWER c = l <-> ascii_tolower c = l).
Proof.
  unfold plain_letter, Py_UNICODE_TOLOWER, is_ascii, ascii_tolower.
  intros Hl. destruct (N.ltb_spec c 128) as [Hc|Hc]; [tauto|].
  pose proof (unicode_tolower_range c Hc) as Hr.
  split; intros <-; n_cases.
Qed.

Lemma plain_is_word (l c : N) :
  plain_letter l = true -> ascii_tolower c = l -> SRE_UNI_IS_WORD c = true.
Proof.
  unfold plain_letter, SRE_UNI_IS_WORD, Py_UNICODE_ISALNUM, is_ascii, ascii_isalnum, ascii_tolower.
  intros Hl <-. n_cases.
Qed.

Lemma last_or_cons prev c s : last_or prev (c :: s) = last_or (Some c) s.
Proof.
  unfold last_or. destruct s as [|c' s']; [done|]. rewrite last_cons_cons.
  destruct (last (c' :: s')) eqn:Hl; [done|]. by apply last_None in Hl.
Qed.

Lemma sre_match_lits_complete q s : forall prev rest',
  sre_match (List.map LITERAL_UNI_IGNORE (List.map Py_UNICODE_TOLOWER s) ++ q) prev (s ++ rest')
  = (app s) <$> sre_match q (last_or prev s) rest'.
Proof.
  induction s as [|c s IH]; intros prev rest'; simpl.
  - unfold last_or; simpl. by destruct (sre_match q prev rest').
  - rewrite N.eqb_refl, IH, last_or_cons.
    by destruct (sre_match q (last_or (Some c) s) rest').
Qed.

Lemma sre_match_lits_sound q w : forall prev rest m,
  sre_match (List.map LITERAL_UNI_IGNORE w ++ q) prev rest = Some m ->
  exists s rest' m',
    rest = s ++ rest' /\ List.map Py_UNICODE_TOLOWER s = w /\ m = s ++ m' /\
    sre_match q (last_or prev s) rest' = Some m'.
Proof.
  induction w as [|l w IH]; intros prev rest m; simpl.
  - intros H. by exists [], rest, m.
  - destruct rest as [|ch rest]; [done|].
    destruct (N.eqb_spec (Py_UNICODE_TOLOWER ch) l) as [<-|]; [|done].
    destruct (sre_match _ (Some ch) rest) as [m1|] eqn:Hm; [|done].
    intros [= <-]. apply IH in Hm as (s & rest' & m' & -> & <- & -> & Hq).
    exists (ch :: s), rest', m'. by rewrite last_or_cons.
Qed.

(** Letters of a plain word fold and are word characters. *)
Lemma folds_to_plain w : forallb plain_letter w = true -> forall s,
  List.map Py_UNICODE_TOLOWER s = w <-> List.map ascii_tolower s = w.
Proof.
  induction w as [|l w IH]; intros Hw s.
  - by destruct s.
  - simpl in Hw. apply andb_prop in Hw as [Hl Hw].
    destruct s as [|c s]; [done|]. simpl.
    split; intros [= H1 H2]; f_equal; try (by apply (tolower_plain l c)); by apply (IH Hw).
Qed.

Lemma folded_word_chars w : forallb plain_letter w = true -> forall s,
  List.map ascii_tolower s = w -> Forall (fun c => SRE_UNI_IS_WORD c = true) s.
Proof.
  induction w as [|l w IH]; intros Hw s.
  - destruct s; [constructor|done].
  - simpl in Hw. apply andb_prop in Hw as [Hl Hw].
    destruct s as [|c s]; [done|]. intros [= H1 H2]. constructor.
    + by apply (plain_is_word l).
    + by apply IH.
Qed.

Lemma Forall_last {A} (P : A -> Prop) (l : list A) x : Forall P l -> last l = Some x -> P x.
Proof.
  intros HP Hl. apply last_Some in Hl as [l' ->].
  apply Forall_app in HP as [_ HP]. by inversion HP.
Qed.

Lemma word_match_iff w prev rest m :
  plain_word w = true ->
  sre_match (word_pattern w) prev rest = Some m <->
  exists post, rest = m ++ post /\ List.map ascii_tolower m = w /\
               is_word_opt prev = false /\ is_word_opt (head post) = false.
Proof.
  intros Hw. assert (Hne : w <> []) by (by destruct w).
  assert (Hpl : forallb plain_letter w = true) by (by destruct w).
  unfold word_pattern. split.
  - simpl. destruct (at_uni_boundary prev (head rest)) eqn:Hb; [|done].
    intros H. apply sre_match_lits_sound in H as (s & post & m' & -> & Hs & -> & Hq).
    simpl in Hq. destruct (at_uni_boundary (last_or prev s) (head post)) eqn:Hb'; [|done].
    injection Hq as <-. rewrite app_nil_r. exists post.
    apply (folds_to_plain w Hpl) in Hs.
    pose proof (folded_word_chars w Hpl s Hs) as Hall.
    destruct s as [|c s]; [by subst w|].
    split; [done|]. split; [done|].
    unfold at_uni_boundary in *. simpl in Hb.
    assert (Hc : SRE_UNI_IS_WORD c = true) by (by inversion Hall).
    rewrite Hc in Hb. split; [by destruct (is_word_opt prev)|].
    unfold last_or in Hb'. destruct (last (c :: s)) as [c'|] eqn:Hlast.
    + apply (Forall_last _ _ _ Hall) in Hlast. simpl in Hb'. rewrite Hlast in Hb'.
      by destruct (is_word_opt (head post)).
    + by apply last_None in Hlast.
  - intros (post & -> & Hs & Hprev & Hpost).
    pose proof (folded_word_chars w Hpl m Hs) as Hall.
    apply (folds_to_plain w Hpl) in Hs. subst w.
    destruct m as [|c m]; [done|].
    assert (Hc : SRE_UNI_IS_WORD c = true) by (by inversion Hall).
    cbn [sre_match]. unfold at_uni_boundary at 1. rewrite Hprev. simpl head. simpl is_word_opt.
    rewrite Hc. simpl xorb. cbv iota.
    rewrite (sre_match_lits_complete [AT_UNI_BOUNDARY] (c :: m) prev post).
    simpl sre_match. unfold at_uni_boundary, last_or. rewrite Hpost.
    destruct (last (c :: m)) as [c'|] eqn:Hlast.
    + apply (Forall_last _ _ _ Hall) in Hlast. simpl. rewrite Hlast. simpl.
      by rewrite app_nil_r.
    + by apply last_None in Hlast.
Qed.

Lemma sre_search_Some p : forall rest prev m,
  sre_search p prev rest = Some m ->
  exists pre post,
    rest = pre ++ post /\ sre_match p (last_or prev pre) post = Some m /\
    forall pre' post', rest = pre' ++ post' -> (length pre' < length pre)%nat ->
                       sre_match p (last_or prev pre') post' = None.
Proof.
  induction rest as [|ch rest IH]; intros prev m; simpl.
  - destruct (sre_match p prev []) eqn:Hm; [|done]. intros [= <-].
    exists [], []. split; [done|]. split; [done|]. simpl. lia.
  - destruct (sre_match p prev (ch :: rest)) eqn:Hm.
    + intros [= <-]. exists [], (ch :: rest). split; [done|]. split; [done|]. simpl. lia.
    + intros H. apply IH in H as (pre & post & -> & Hp & Hmin).
      exists (ch :: pre), post. split; [done|]. rewrite last_or_cons. split; [done|].
      intros pre' post' Heq Hlen. destruct pre' as [|c' pre'].
      * simpl in Heq. subst post'. done.
      * injection Heq as <- Heq. rewrite last_or_cons. apply Hmin; [done|]. simpl in Hlen. lia.
Qed.

Lemma sre_search_None p : forall rest prev,
  sre_search p prev rest = None ->
  forall pre post, rest = pre ++ post -> sre_match p (last_or prev pre) post = None.
Proof.
  induction rest as [|ch rest IH]; intros prev; simpl.
  - destruct (sre_match p prev []) eqn:Hm; [done|]. intros _ pre post Heq.
    symmetry in Heq. apply app_eq_nil in Heq as [-> ->]. done.
  - destruct (sre_match p prev (ch :: rest)) eqn:Hm; [done|].
    intros H pre post Heq. destruct pre as [|c' pre].
    + simpl in Heq. by subst post.
    + injection Heq as <- Heq. rewrite last_or_cons. by apply (IH (Some ch)).
Qed.

Lemma last_or_None pre : last_or None pre = last pre.
Proof. unfold last_or. by destruct (last pre). Qed.

Lemma plain_word_folded w : plain_word w = true -> List.map ascii_tolower w = w.
Proof.
  intros Hw. assert (Hpl : forallb plain_letter w = true) by (by destruct w).
  clear Hw. induction w as [|l w IH]; [done|].
  simpl in Hpl. apply andb_prop in Hpl as [Hl Hpl]. simpl. rewrite (IH Hpl). f_equal.
  revert Hl. unfold plain_letter, ascii_tolower. n_cases.
Qed.

Lemma word_match_whole w text pre s post :
  plain_word w = true ->
  whole_word_at w text pre s post <->
  text = pre ++ s ++ post /\ sre_match (word_pattern w) (last pre) (s ++ post) = Some s.
Proof.
  intros Hw. unfold whole_word_at, any_casing.
  rewrite (word_match_iff w _ _ _ Hw), (plain_word_folded w Hw). split.
  - intros (-> & Hs & Hpre & Hpost). split; [done|]. by exists post.
  - intros (-> & post' & Heq & Hs & Hpre & Hpost).
    apply app_inv_head in Heq. by subst post'.
Qed.

Lemma re_search_word_Some w text s :
  plain_word w = true ->
  re_search (word_pattern w) text = Some s ->
  exists pre post, leftmost_whole_word w text pre s post.
Proof.
  intros Hw Hs. apply sre_search_Some in Hs as (pre & rest & -> & Hm & Hmin).
  rewrite last_or_None in Hm.
  pose proof Hm as Hm'. apply (word_match_iff w _ _ _ Hw) in Hm' as (post & -> & _).
  exists pre, post. split.
  - by apply (word_match_whole w _ _ _ _ Hw).
  - intros pre' s' post' Hocc.
    apply (word_match_whole w _ _ _ _ Hw) in Hocc as [Heq Hm'].
    destruct (decide (length pre' < length pre)%nat) as [Hlt|]; [|lia].
    specialize (Hmin pre' (s' ++ post') Heq Hlt).
    rewrite last_or_None in Hmin. congruence.
Qed.

Lemma re_search_word_None w text :
  plain_word w = true ->
  re_search (word_pattern w) text = None -> ~ contains_whole_word w text.
Proof.
  intros Hw Hs (pre & s & post & Hocc).
  apply (word_match_whole w _ _ _ _ Hw) in Hocc as [Heq Hm].
  pose proof (sre_search_None _ _ _ Hs pre (s ++ post) Heq) as Hn.
  rewrite last_or_None in Hn. congruence.
Qed.

Lemma first_match_Some ws text s :
  Forall (fun w => plain_word w = true) ws ->
  first_match (List.map word_pattern ws) text = Some s ->
  exists k w, ws !! k = Some w /\
    (exists pre post, leftmost_whole_word w text pre s post) /\
    forall j w', (j < k)%nat -> ws !! j = Some w' -> ~ contains_whole_word w' text.
Proof.
  induction 1 as [|w ws Hw Hws IH]; simpl; [done|].
  destruct (re_search (word_pattern w) text) as [m|] eqn:Hm.
  - intros [= ->]. exists 0%nat, w. split; [done|].
    split; [by apply re_search_word_Some|]. intros j w' Hj. lia.
  - intros H. apply IH in H as (k & w0 & Hk & Hocc & Hmin).
    exists (S k), w0. split; [done|]. split; [done|].
    intros [|j] w' Hj Hlook.
    + injection Hlook as <-. by apply re_search_word_None.
    + apply (Hmin j); [lia|done].
Qed.

Lemma first_match_None ws text :
  Forall (fun w => plain_word w = true) ws ->
  first_match (List.map word_pattern ws) text = None ->
  forall w, w ∈ ws -> ~ contains_whole_word w text.
Proof.
  induction 1 as [|w ws Hw Hws IH]; simpl; intros H w0 Hin.
  - by apply elem_of_nil in Hin.
  - destruct (re_search (word_pattern w) text) as [m|] eqn:Hm; [done|].
    apply elem_of_cons in Hin as [->|Hin]; [by apply re_search_word_None|by apply IH].
Qed.

(** Every raw pattern of the program is in the compiled fragment. *)
Lemma patterns_compile :
  compiled (str "\b" ++ CORRECT_NAME ++ str "\b") = word_pattern (str "mbeumo") /\
  MISSPELLINGS = List.map word_pattern MISSPELLING_WORDS /\
  Forall (fun raw => is_Some (re_compile raw)) MISSPELLINGS_RAW.
Proof.
  split; [reflexivity|]. split; [reflexivity|].
  repeat constructor; vm_compute; eauto.
Qed.

Lemma misspelling_words_plain : Forall (fun w => plain_word w = true) MISSPELLING_WORDS.
Proof. repeat constructor. Qed.

Lemma correct_name_casing text :
  contains_whole_word CORRECT_NAME text <-> contains_whole_word (str "mbeumo") text.
Proof. reflexivity. Qed.

Lemma find_misspelling_unfold text :
  find_misspelling text =
  match re_search (word_pattern (str "mbeumo")) text with
  | Some _ => None
  | None => first_match (List.map word_pattern MISSPELLING_WORDS) text
  end.
Proof. reflexivity. Qed.

Lemma whole_correct_name_None text :
  contains_whole_word CORRECT_NAME text -> find_misspelling text = None.
Proof.
  intros Hocc. rewrite find_misspelling_unfold.
  destruct (re_search (word_pattern (str "mbeumo")) text) eqn:Hs; [done|].
  apply re_search_word_None in Hs; [|reflexivity]. by apply correct_name_casing in Hocc.
Qed.

Lemma correct_name_absent text :
  ~ contains_whole_word CORRECT_NAME text ->
  find_misspelling text = first_match (List.map word_pattern MISSPELLING_WORDS) text.
Proof.
  intros Hno. rewrite find_misspelling_unfold.
  destruct (re_search (word_pattern (str "mbeumo")) text) as [m|] eqn:Hs; [|done].
  apply re_search_word_Some in Hs as (pre & post & Hocc & _); [|reflexivity].
  destruct Hno. by exists pre, m, post.
Qed.

Lemma found_without_correct_name text s :
  find_misspelling text = Some s -> ~ contains_whole_word CORRECT_NAME text.
Proof.
  intros Hs Hocc. apply whole_correct_name_None in Hocc. congruence.
Qed.

(** A result is the leftmost whole-word occurrence of the first word, in
    list order, that occurs at all. *)
Lemma found_in_order text s :
  find_misspelling text = Some s ->
  exists k w,
    MISSPELLING_WORDS !! k = Some w /\
    MISSPELLINGS !! k = Some (word_pattern w) /\
    (exists pre post, leftmost_whole_word w text pre s post) /\
    forall j w', (j < k)%nat -> MISSPELLING_WORDS !! j = Some w' ->
                 ~ contains_whole_word w' text.
Proof.
  intros Hs. pose proof (found_without_correct_name text s Hs) as Hno.
  rewrite (correct_name_absent text Hno) in Hs.
  apply (first_match_Some _ _ _ misspelling_words_plain) in Hs as (k & w & Hk & Hocc & Hmin).
  exists k, w. split; [done|]. split; [|done].
  destruct patterns_compile as (_ & -> & _). by rewrite list_lookup_fmap, Hk.
Qed.

(** C1.  A text that contains the correct name "Mbeumo" as a whole word, in
    any casing, yields [None], whatever else it contains. *)
Theorem correct_name_suppresses text :
  contains_whole_word CORRECT_NAME text -> find_misspelling text = None.
Proof. apply whole_correct_name_None. Qed.

(** C2.  On a text without a whole-word occurrence of the correct name, a
    result [s] is a substring of the text as it stands there, the leftmost
    whole-word occurrence of the [k]-th misspelling, and no earlier
    misspelling of the list occurs as a whole word; the result is [None] only
    when no misspelling of the list does.  The two scenarios of the
    specification evaluate as it says. *)
Theorem first_pattern_in_order :
  (forall text, ~ contains_whole_word CORRECT_NAME text ->
     (forall s, find_misspelling text = Some s ->
        exists k w,
          MISSPELLING_WORDS !! k = Some w /\
          MISSPELLINGS !! k = Some (word_pattern w) /\
          (exists pre post, leftmost_whole_word w text pre s post) /\
          forall j w', (j < k)%nat -> MISSPELLING_WORDS !! j = Some w' ->
                       ~ contains_whole_word w' text) /\
     (find_misspelling text = None ->
        forall w, w ∈ MISSPELLING_WORDS -> ~ contains_whole_word w text)) /\
  find_misspelling (str "Great goal by Mbuemo!") = Some (str "Mbuemo") /\
  find_misspelling (str "mbuemo and mboma both misspelled") = Some (str "mbuemo").
Proof.
  split; [|split; reflexivity].
  intros text Hno. split; [apply found_in_order|].
  rewrite (correct_name_absent text Hno).
  apply first_match_None, misspelling_words_plain.
Qed.

(** C9.  A result [s] is a contiguous substring of the text, a whole-word
    occurrence in some casing of one of the twelve misspellings; the text
    then has no whole-word occurrence of the correct name, and [s] is not
    "Mbeumo" in any casing. *)
Theorem positive_result text s :
  find_misspelling text = Some s ->
  (exists pre post, text = pre ++ s ++ post) /\
  (exists k w, MISSPELLING_WORDS !! k = Some w /\
               MISSPELLINGS !! k = Some (word_pattern w) /\
               exists pre post, whole_word_at w text pre s post) /\
  length MISSPELLINGS = 12%nat /\
  ~ contains_whole_word CORRECT_NAME text /\
  ~ any_casing CORRECT_NAME s.
Proof.
  intros Hs. pose proof (found_without_correct_name text s Hs) as Hno.
  destruct (found_in_order text s Hs) as (k & w & Hk & Hp & (pre & post & Hocc & _) & _).
  split; [exists pre, post; apply Hocc|].
  split; [by exists k, w; eauto|]. split; [reflexivity|]. split; [done|].
  intros Hcase. apply Hno. exists pre, s, post.
  destruct Hocc as (Heq & _ & Hpre & Hpost). done.
Qed.
End Matcher_facts.

Section Stats_facts.
Context {rt : PyRuntime}.

Lemma add_count_comm v1 v2 acc :
  add_count v1 (add_count v2 acc) = add_count v2 (add_count v1 acc).
Proof.
  unfold add_count. destruct acc as [a|]; simpl; [|done].
  destruct (int_of v1) as [z1|], (int_of v2) as [z2|]; simpl; try done.
  f_equal. lia.
Qed.

Lemma sum_values_insert counts key v :
  counts !! key = None ->
  sum_values (<[key := v]> counts) = add_count v (sum_values counts).
Proof.
  intros Hk. unfold sum_values.
  rewrite map_fold_insert_L; [done| |done].
  intros. apply add_count_comm.
Qed.

Lemma sum_values_delete counts key v :
  counts !! key = Some v ->
  sum_values counts = add_count v (sum_values (delete key counts)).
Proof.
  intros Hk. unfold sum_values.
  rewrite (map_fold_delete_L _ _ key v); [done| |done].
  intros. apply add_count_comm.
Qed.

(** A sum exists only over integer counts. *)
Lemma sum_values_typed counts total key v :
  sum_values counts = Some total -> counts !! key = Some v -> is_Some (int_of v).
Proof.
  intros Hsum Hk. rewrite (sum_values_delete counts key v Hk) in Hsum.
  unfold add_count in Hsum. destruct (sum_values (delete key counts)); simpl in Hsum; [|done].
  destruct (int_of v); [eauto|done].
Qed.

(** Raising one count by one raises the sum by one. *)
Lemma sum_values_bump counts total key :
  sum_values counts = Some total ->
  sum_values (<[key := PInt (count_at counts key + 1)]> counts) = Some (total + 1)%Z.
Proof.
  intros Hsum. unfold count_at. destruct (counts !! key) as [v|] eqn:Hk; simpl.
  - rewrite <- insert_delete_eq, sum_values_insert by apply lookup_delete_eq.
    rewrite (sum_values_delete counts key v Hk) in Hsum. unfold add_count in *.
    destruct (sum_values (delete key counts)) as [a|]; [|done].
    destruct (int_of v) as [z|]; [|done].
    simpl in *. injection Hsum as <-. f_equal. lia.
  - by rewrite sum_values_insert, Hsum.
Qed.

Lemma counts_of_inv stats total counts :
  counts_of stats = Some (total, counts) ->
  exists d t, stats = PDict d /\ d !! str "total_corrections" = Some t /\
              int_of t = Some total /\ d !! str "misspellings" = Some (PDict counts).
Proof.
  destruct stats as [| | | | | |d]; try done. simpl.
  destruct (d !! str "total_corrections") as [t|] eqn:Ht; [|done].
  destruct (d !! str "misspellings") as [[| | | | | |c]|] eqn:Hc; try done.
  destruct (int_of t) as [n|] eqn:Hn; [|done]. simpl.
  intros [= <- <-]. by exists d, t.
Qed.

Lemma py_add1_int v z : int_of v = Some z -> py_add1 v = inr (PInt (z + 1)).
Proof. destruct v; try done; simpl; by intros [= <-]. Qed.

Lemma record_correction_typed misspelling d total counts :
  counts_of (PDict d) = Some (total, counts) ->
  (forall v, counts !! py_lower misspelling = Some v -> is_Some (int_of v)) ->
  record_correction misspelling (PDict d)
  = (inr tt, PDict (bumped d total counts (py_lower misspelling))).
Proof.
  intros Hc Hty. apply counts_of_inv in Hc as (d0 & t & [= <-] & Ht & Hn & Hms).
  unfold record_correction, bumped. set (key := py_lower misspelling) in *.
  simpl. rewrite Ht. simpl. rewrite (py_add1_int t total Hn). simpl.
  rewrite lookup_insert_ne by done. rewrite Hms. simpl.
  unfold count_at.
  destruct (counts !! key) as [v|] eqn:Hk; simpl.
  - rewrite lookup_insert_eq. simpl. rewrite Hk. simpl.
    destruct (Hty v eq_refl) as [z Hz]. rewrite (py_add1_int v z Hz), Hz. simpl.
    by rewrite insert_insert_eq.
  - rewrite lookup_insert_eq. simpl. rewrite lookup_insert_eq. simpl.
    rewrite !insert_insert_eq. done.
Qed.

Lemma counts_of_bumped d total counts key :
  counts_of (PDict (bumped d total counts key))
  = Some ((total + 1)%Z, <[key := PInt (count_at counts key + 1)]> counts).
Proof.
  unfold bumped. simpl. rewrite lookup_insert_ne by done.
  by rewrite !lookup_insert_eq.
Qed.

Lemma record_correction_step misspelling stats total counts :
  counts_of stats = Some (total, counts) ->
  (forall v, counts !! py_lower misspelling = Some v -> is_Some (int_of v)) ->
  exists stats',
    record_correction misspelling stats = (inr tt, stats') /\
    counts_of stats'
    = Some ((total + 1)%Z,
            <[py_lower misspelling := PInt (count_at counts (py_lower misspelling) + 1)]> counts) /\
    forall k, k <> str "total_corrections" -> k <> str "misspellings" ->
              field stats' k = field stats k.
Proof.
  intros Hc Hty. pose proof Hc as Hc'.
  apply counts_of_inv in Hc' as (d & t & -> & _).
  eexists. split; [by apply record_correction_typed|].
  split; [apply counts_of_bumped|].
  intros k Hk1 Hk2. unfold bumped. simpl. by rewrite !lookup_insert_ne.
Qed.

Lemma stats_consistent_typed stats : stats_consistent stats -> stats_typed stats.
Proof.
  intros (total & counts & Hc & Hsum). exists total, counts. split; [done|].
  intros k v. apply (sum_values_typed counts total k v Hsum).
Qed.

(** C8.  On stats whose total and counts are integers, one correction
    returns normally; the key is the misspelling lower-cased; that key's count
    becomes its old value, 0 when it had none, plus 1; the total grows by 1;
    every other count and every other field is as before. *)
Theorem record_correction_increments misspelling stats :
  stats_typed stats ->
  forall total counts, counts_of stats = Some (total, counts) ->
  exists stats' counts',
    record_correction misspelling stats = (inr tt, stats') /\
    counts_of stats' = Some ((total + 1)%Z, counts') /\
    counts' !! py_lower misspelling
      = Some (PInt (count_at counts (py_lower misspelling) + 1)) /\
    (counts !! py_lower misspelling = None -> count_at counts (py_lower misspelling) = 0%Z) /\
    (forall k, k <> py_lower misspelling -> counts' !! k = counts !! k) /\
    (forall k, k <> str "total_corrections" -> k <> str "misspellings" ->
               field stats' k = field stats k) /\
    (forallb is_ascii misspelling = true ->
     py_lower misspelling = List.map ascii_tolower misspelling).
Proof.
  intros (total0 & counts0 & Hc0 & Hty) total counts Hc.
  rewrite Hc in Hc0. injection Hc0 as <- <-.
  destruct (record_correction_step misspelling stats total counts Hc) as (stats' & Hrun & Hc' & Hother).
  { intros v. apply Hty. }
  exists stats'. eexists. split; [done|]. split; [done|].
  split; [by rewrite lookup_insert_eq|].
  split; [by unfold count_at; intros ->|].
  split; [by intros k Hk; rewrite lookup_insert_ne|].
  split; [done|]. unfold py_lower. by intros ->.
Qed.

Lemma record_corrections_consistent found : forall stats total counts,
  counts_of stats = Some (total, counts) -> sum_values counts = Some total ->
  exists stats' counts',
    record_corrections found stats = (inr tt, stats') /\
    counts_of stats' = Some ((total + Z.of_nat (length found))%Z, counts') /\
    sum_values counts' = Some (total + Z.of_nat (length found))%Z.
Proof.
  induction found as [|m found IH]; intros stats total counts Hc Hsum.
  - exists stats, counts. simpl length. rewrite Z.add_0_r. done.
  - destruct (record_correction_step m stats total counts Hc) as (stats1 & Hrun & Hc1 & _).
    { intros v. by apply (sum_values_typed counts total). }
    destruct (IH stats1 _ _ Hc1 (sum_values_bump counts total _ Hsum))
      as (stats' & counts' & Hrun' & Hc' & Hsum').
    exists stats', counts'.
    replace (total + Z.of_nat (length (m :: found)))%Z
      with (total + 1 + Z.of_nat (length found))%Z by (simpl length; lia).
    split; [|done].
    cbn [record_corrections]. unfold mbind, M_bind. by rewrite Hrun.
Qed.

(** C3.  If the total equals the sum of the counts, then after any run of
    corrections it still does. *)
Theorem total_matches_sum found stats :
  stats_consistent stats ->
  exists stats',
    record_corrections found stats = (inr tt, stats') /\ stats_consistent stats'.
Proof.
  intros (total & counts & Hc & Hsum).
  destruct (record_corrections_consistent found stats total counts Hc Hsum)
    as (stats' & counts' & Hrun & Hc' & Hsum').
  exists stats'. split; [done|]. by exists (total + Z.of_nat (length found))%Z, counts'.
Qed.
End Stats_facts.

Section Store_facts.
Context {rt : PyRuntime}.

Lemma py_setdefault_dict d key value :
  py_setdefault (PDict d) key value = inr (PDict (with_default key value d)).
Proof. unfold py_setdefault, with_default. by destruct (d !! key). Qed.

Lemma load_stats_absent w :
  file w = Absent -> load_stats w = (inr (PDict (default_stats (now w))), w).
Proof. intros Hf. unfold load_stats, mbind, M_bind, path_exists. by rewrite Hf. Qed.

Lemma load_stats_stat_fails w e :
  file w = StatFails e -> load_stats w = (inl e, w).
Proof. intros Hf. unfold load_stats, mbind, M_bind, path_exists. by rewrite Hf. Qed.

Lemma load_stats_try_unreadable w e :
  file w = Unreadable e \/ file w = Corrupt e -> load_stats_try w = (inr None, w).
Proof.
  intros [Hf|Hf]; unfold load_stats_try, try_except, mbind, M_bind, open_read;
    by rewrite Hf.
Qed.

Lemma load_stats_try_content w text :
  file w = Content text ->
  load_stats_try w =
  match json_loads text with
  | inr (PDict d) => (inr (Some (PDict (merged (now w) d))), w)
  | _ => (inr None, w)
  end.
Proof.
  intros Hf. unfold load_stats_try, try_except, mbind, M_bind, open_read, lift.
  rewrite Hf. destruct (json_loads text) as [e|v]; [done|].
  unfold utcnow_isoformat.
  destruct v; try done. by rewrite !py_setdefault_dict.
Qed.

Lemma load_stats_present w :
  file w <> Absent -> (forall e, file w <> StatFails e) ->
  load_stats w =
  match load_stats_try w with
  | (inr (Some data), w') => (inr data, w')
  | (inr None, w') => (inr (PDict (default_stats (now w'))), w')
  | (inl e, w') => (inl e, w')
  end.
Proof.
  intros Hf Hs. unfold load_stats, mbind at 1, M_bind at 1, path_exists.
  destruct (file w) as [|e|e|e|text]; [done|by destruct (Hs e)|..];
    cbv beta iota; unfold mbind, M_bind;
    by destruct (load_stats_try w) as [[err|[data|]] w'].
Qed.

Lemma load_stats_unreadable w e :
  file w = Unreadable e \/ file w = Corrupt e ->
  load_stats w = (inr (PDict (default_stats (now w))), w).
Proof.
  intros Hf. rewrite load_stats_present, (load_stats_try_unreadable w e Hf); [done|..];
    destruct Hf; congruence.
Qed.

Lemma load_stats_content w text :
  file w = Content text ->
  load_stats w =
  match json_loads text with
  | inr (PDict d) => (inr (PDict (merged (now w) d)), w)
  | _ => (inr (PDict (default_stats (now w))), w)
  end.
Proof.
  intros Hf. rewrite load_stats_present, (load_stats_try_content w text Hf) by congruence.
  by destruct (json_loads text) as [e|[]].
Qed.

Lemma with_default_lookup key value d k :
  with_default key value d !! k
  = match d !! k with
    | Some v => Some v
    | None => if decide (k = key) then Some value else None
    end.
Proof.
  unfold with_default. destruct (d !! key) as [v0|] eqn:Hkey.
  - destruct (d !! k) eqn:Hk; [done|]. case_decide; [congruence|done].
  - rewrite lookup_insert. case_decide as Heq.
    + subst k. rewrite Hkey. by rewrite decide_True.
    + destruct (d !! k); [done|]. by rewrite decide_False.
Qed.

Lemma merged_lookup t d k :
  merged t d !! k
  = match d !! k with
    | Some v => Some v
    | None => default_stats t !! k
    end.
Proof.
  unfold merged. rewrite !with_default_lookup.
  destruct (d !! k) as [v|]; [done|]. unfold default_stats.
  rewrite !lookup_insert, lookup_singleton.
  repeat case_decide; congruence.
Qed.

Lemma merged_present t d :
  is_Some (d !! str "start_time") -> is_Some (d !! str "total_corrections") ->
  is_Some (d !! str "misspellings") -> merged t d = d.
Proof.
  intros [v1 H1] [v2 H2] [v3 H3]. unfold merged, with_default.
  by rewrite H1, H2, H3.
Qed.

(** C4.  [load_stats] does not return whatever the disk does:
    [STATS_PATH.exists()] is called before the [try], and when [stat] fails
    for another reason than a missing path, [load_stats] raises that
    [OSError].  Where the [try] applies it fails open: when the file is
    absent, cannot be read, does not parse, or parses to something that is
    not an object, it returns the fresh dict: the current time, a total of 0,
    no counts. *)
Theorem load_stats_fail_open w :
  (forall e, file w = StatFails e -> load_stats w = (inl e, w)) /\
  (file w = Absent \/
   (exists e, file w = Unreadable e) \/
   (exists e, file w = Corrupt e) \/
   (exists text e, file w = Content text /\ json_loads text = inl e) \/
   (exists text v, file w = Content text /\ json_loads text = inr v /\
                   forall d, v <> PDict d) ->
   load_stats w
   = (inr (PDict {[ str "start_time" := PStr (now w);
                    str "total_corrections" := PInt 0;
                    str "misspellings" := PDict ∅ ]}), w)).
Proof.
  split; [apply load_stats_stat_fails|].
  intros [Hf|[[e Hf]|[[e Hf]|[(text & e & Hf & Hl)|(text & v & Hf & Hl & Hv)]]]].
  - by apply load_stats_absent.
  - apply (load_stats_unreadable w e). by left.
  - apply (load_stats_unreadable w e). by right.
  - by rewrite (load_stats_content w text Hf), Hl.
  - rewrite (load_stats_content w text Hf), Hl.
    destruct v; try done. by destruct (Hv d).
Qed.

(** C10.  When the file parses to an object, [load_stats] returns that
    object: each pair it holds is kept, each of the three keys it lacks gets
    its default, and no other key appears. *)
Theorem load_stats_merges w text d :
  file w = Content text -> json_loads text = inr (PDict d) ->
  exists d',
    load_stats w = (inr (PDict d'), w) /\
    (forall k v, d !! k = Some v -> d' !! k = Some v) /\
    (d !! str "start_time" = None -> d' !! str "start_time" = Some (PStr (now w))) /\
    (d !! str "total_corrections" = None -> d' !! str "total_corrections" = Some (PInt 0)) /\
    (d !! str "misspellings" = None -> d' !! str "misspellings" = Some (PDict ∅)) /\
    (forall k, d !! k = None -> k <> str "start_time" -> k <> str "total_corrections" ->
               k <> str "misspellings" -> d' !! k = None).
Proof.
  intros Hf Hl. exists (merged (now w) d).
  split; [by rewrite (load_stats_content w text Hf), Hl|].
  split; [by intros k v Hk; rewrite merged_lookup, Hk|].
  repeat split; try (by intros Hk; rewrite merged_lookup, Hk).
  intros k Hk H1 H2 H3. rewrite merged_lookup, Hk. unfold default_stats.
  by rewrite !lookup_insert_ne, lookup_singleton_ne.
Qed.

Lemma write_chunks_run chunks : forall f,
  write_chunks chunks f = (inr tt, Writer (disk f) (buffered f ++ concat chunks)).
Proof.
  induction chunks as [|chunk chunks IH]; intros f.
  - simpl. rewrite app_nil_r. by destruct f.
  - cbn [write_chunks concat]. unfold mbind, M_bind, fp_write.
    rewrite IH. simpl. by rewrite app_assoc.
Qed.

Lemma json_dump_run stats f :
  json_dump stats f
  = (dump_result stats, Writer (disk f) (buffered f ++ concat (json_iterencode stats).1)).
Proof.
  unfold json_dump, dump_result. destruct (json_iterencode stats) as [chunks err].
  unfold mbind, M_bind. rewrite write_chunks_run. simpl. by destruct err.
Qed.

Lemma write_stats_unfold stats w :
  write_stats stats w =
  match open_write w with
  | (inl e, w') => (inl e, w')
  | (inr _, w') =>
      match fp_close (Writer w' (concat (json_iterencode stats).1)) with
      | (inl e, w'') => (inl e, w'')
      | (inr _, w'') => (dump_result stats, w'')
      end
  end.
Proof.
  unfold write_stats, with_open_write, mbind, M_bind.
  destruct (open_write w) as [[e|[]] w']; [done|].
  unfold with_file. by rewrite json_dump_run.
Qed.

Lemma open_write_frame w :
  stdout (open_write w).2 = stdout w /\ now (open_write w).2 = now w /\
  environ (open_write w).2 = environ w.
Proof. unfold open_write. by destruct (open_fault w), (file w). Qed.

Lemma fp_close_frame f :
  stdout (fp_close f).2 = stdout (disk f) /\ now (fp_close f).2 = now (disk f) /\
  environ (fp_close f).2 = environ (disk f).
Proof.
  unfold fp_close. destruct (write_fault (disk f)) as [[n e]|]; [|done].
  by destruct (length (buffered f) <=? n)%nat.
Qed.

Lemma write_stats_frame stats w :
  stdout (write_stats stats w).2 = stdout w /\ now (write_stats stats w).2 = now w.
Proof.
  rewrite write_stats_unfold. destruct (open_write_frame w) as (Ho & Hn & _).
  destruct (open_write w) as [[e|[]] w']; simpl in *; [done|].
  destruct (fp_close_frame (Writer w' (concat (json_iterencode stats).1)))
    as (Ho' & Hn' & _).
  destruct (fp_close _) as [[e|[]] w'']; simpl in *; split; congruence.
Qed.

Lemma open_write_fails w e : (open_write w).1 = inl e -> (open_write w).2 = w.
Proof. unfold open_write. by destruct (open_fault w), (file w). Qed.

(** Opening a file that can be read back leaves it empty. *)
Lemma open_write_readable w :
  open_fault w = None -> readable_back w = true ->
  open_write w = (inr tt, set_file (Content []) w).
Proof.
  unfold open_write, readable_back, created. intros -> Hr.
  destruct (file w); try done. by destruct (create_fault w).
Qed.

(** What the disk holds after a flush is a prefix of the text. *)
Lemma fp_close_file w text :
  exists written,
    written `prefix_of` text /\
    file (fp_close (Writer w text)).2 = append_text written (file w) /\
    ((fp_close (Writer w text)).1 = inr tt -> written = text).
Proof.
  unfold fp_close. simpl. destruct (write_fault w) as [[n e]|].
  - destruct (length text <=? n)%nat.
    + by exists text.
    + exists (take n text). split; [apply prefix_take|done].
  - by exists text.
Qed.

Lemma write_stats_file stats w :
  open_fault w = None -> readable_back w = true ->
  exists written,
    written `prefix_of` concat (json_iterencode stats).1 /\
    file (write_stats stats w).2 = Content written /\
    ((write_stats stats w).1 = inr tt ->
     written = concat (json_iterencode stats).1 /\ (json_iterencode stats).2 = None).
Proof.
  intros Hopen Hr. rewrite write_stats_unfold, (open_write_readable w Hopen Hr).
  destruct (fp_close_file (set_file (Content []) w) (concat (json_iterencode stats).1))
    as (written & Hpre & Hfile & Hall).
  exists written. split; [done|].
  destruct (fp_close _) as [[e|[]] w'']; simpl in *; [done|].
  split; [done|]. unfold dump_result.
  destruct (json_iterencode stats).2; [done|]. intros _. by split; [apply Hall|].
Qed.

Lemma write_stats_opened stats w :
  (write_stats stats w).1 = inr tt -> open_fault w = None.
Proof.
  rewrite write_stats_unfold. unfold open_write. by destruct (open_fault w).
Qed.

Lemma write_stats_ok stats w :
  readable_back w = true ->
  (write_stats stats w).1 = inr tt ->
  exists chunks,
    json_iterencode stats = (chunks, None) /\
    file (write_stats stats w).2 = Content (concat chunks).
Proof.
  intros Hr Hok.
  destruct (write_stats_file stats w (write_stats_opened stats w Hok) Hr)
    as (written & _ & Hfile & Hall).
  destruct (Hall Hok) as [-> Hnone].
  exists (json_iterencode stats).1. split; [|done].
  by destruct (json_iterencode stats) as [chunks err]; simpl in *; subst.
Qed.

Lemma save_stats_unfold stats w :
  save_stats stats w =
  match write_stats stats w with
  | (inl exc, w') => print (str "[STATS] Failed to save: " ++ exn_str exc) w'
  | (inr a, w') => (inr a, w')
  end.
Proof. reflexivity. Qed.

(** C7.  [save_stats] returns normally whatever the stats and the disk;
    when opening, serialising or writing raised [exc], the one line
    "[STATS] Failed to save: exc" is printed, and nothing otherwise. *)
Theorem save_stats_never_raises stats w :
  (save_stats stats w).1 = inr tt /\
  (forall exc, (write_stats stats w).1 = inl exc ->
     stdout (save_stats stats w).2
     = stdout w ++ [str "[STATS] Failed to save: " ++ exn_str exc]) /\
  ((write_stats stats w).1 = inr tt -> stdout (save_stats stats w).2 = stdout w).
Proof.
  rewrite save_stats_unfold. destruct (write_stats_frame stats w) as [Ho _].
  destruct (write_stats stats w) as [[e|[]] w1]; simpl in *.
  - split; [done|]. split; [|done]. intros exc [= <-]. by rewrite Ho.
  - split; [done|]. split; [done|]. done.
Qed.

(** A saved dict that holds the three keys is loaded back as it is, when
    the file can be read back and the codec gives the dict back. *)
Lemma saved_stats_load_back stats w :
  has_stats_keys stats ->
  readable_back w = true ->
  (write_stats stats w).1 = inr tt ->
  (forall chunks, json_iterencode stats = (chunks, None) ->
                  json_loads (concat chunks) = inr stats) ->
  (load_stats (save_stats stats w).2).1 = inr stats.
Proof.
  intros Hkeys Hr Hok Hcodec.
  destruct stats as [| | | | | |d]; try by destruct Hkeys as ([v Hv] & _).
  destruct Hkeys as (H1 & H2 & H3). simpl in *.
  rewrite save_stats_unfold.
  destruct (write_stats_ok (PDict d) w Hr Hok) as (chunks & Henc & Hfile).
  destruct (write_stats (PDict d) w) as [[e|[]] w1]; simpl in *; [done|].
  rewrite (load_stats_content w1 (concat chunks) Hfile), (Hcodec chunks Henc).
  simpl. by rewrite merged_present.
Qed.

(** C6, as amended.  A configured value of at least 10 is the interval; a
    lower one gives 10, and the warning line is printed; with nothing
    configured the interval is 60; a configured 5 gives 10. *)
Theorem poll_interval_floor :
  (forall w raw n,
     environ w !! str "POLL_INTERVAL_SECONDS" = Some raw -> py_int raw = inr n ->
     (10 <= n -> poll_interval_setup w = (inr n, w))%Z /\
     (n < 10 -> (poll_interval_setup w).1 = inr 10%Z /\
                stdout (poll_interval_setup w).2 = stdout w ++ [POLL_WARNING])%Z) /\
  (forall w, environ w !! str "POLL_INTERVAL_SECONDS" = None ->
             poll_interval_setup w = (inr 60%Z, w)) /\
  (forall w, environ w !! str "POLL_INTERVAL_SECONDS" = Some (str "5") ->
             (poll_interval_setup w).1 = inr 10%Z).
Proof.
  split; [|split].
  - intros w raw n Henv Hint.
    unfold poll_interval_setup, mbind, M_bind, getenv, lift. rewrite Henv. simpl.
    rewrite Hint. split; intros Hn.
    + by rewrite (proj2 (Z.ltb_ge n 10) Hn).
    + by rewrite (proj2 (Z.ltb_lt n 10) Hn).
  - intros w Henv. unfold poll_interval_setup, mbind, M_bind, getenv, lift.
    by rewrite Henv.
  - intros w Henv. unfold poll_interval_setup, mbind, M_bind, getenv, lift.
    by rewrite Henv.
Qed.
End Store_facts.

Section Round_trip.
Context {rt : PyRuntime} {codec : JsonRoundTrip rt}.

Lemma typed_stats_exact d t n counts :
  d !! str "start_time" = Some (PStr t) ->
  d !! str "total_corrections" = Some (PInt n) ->
  d !! str "misspellings" = Some (PDict counts) ->
  (forall k v, counts !! k = Some v -> exists z, v = PInt z) ->
  (forall k v, d !! k = Some v ->
     k <> str "start_time" -> k <> str "total_corrections" ->
     k <> str "misspellings" -> json_exact v) ->
  json_exact (PDict d).
Proof.
  intros Ht Hn Hm Hcounts Hrest. constructor. intros k v Hk.
  destruct (decide (k = str "start_time")) as [->|K1];
    [rewrite Ht in Hk; injection Hk as <-; constructor|].
  destruct (decide (k = str "total_corrections")) as [->|K2];
    [rewrite Hn in Hk; injection Hk as <-; constructor|].
  destruct (decide (k = str "misspellings")) as [->|K3]; [|by eapply Hrest].
  rewrite Hm in Hk. injection Hk as <-. constructor.
  intros k' v' Hk'. destruct (Hcounts k' v' Hk') as [z ->]. constructor.
Qed.

End Round_trip.

(** * Proofs: the reply, the configuration and the loop *)

Section Reply_facts.
Context {rt : PyRuntime}.

Lemma reply_text_parts misspelling :
  reply_text misspelling
  = REPLY_BEFORE_CORRECT ++ CORRECT_NAME ++ REPLY_BEFORE_FOUND ++ misspelling
      ++ REPLY_AFTER_FOUND.
Proof. vm_compute. reflexivity. Qed.

(** X1.  The reply the bot posts is never itself flagged: whatever
    misspelling it quotes, it holds the correct name as a whole word, so
    [find_misspelling] returns [None] on it. *)
Theorem reply_is_never_flagged misspelling :
  find_misspelling (reply_text misspelling) = None.
Proof.
  apply whole_correct_name_None. rewrite reply_text_parts.
  exists REPLY_BEFORE_CORRECT, CORRECT_NAME,
    (REPLY_BEFORE_FOUND ++ misspelling ++ REPLY_AFTER_FOUND).
  repeat split.
Qed.

Lemma folded_ascii w : forallb plain_letter w = true -> forall s,
  List.map ascii_tolower s = w -> forallb is_ascii s = true.
Proof.
  induction w as [|l w IH]; intros Hw s.
  - by destruct s.
  - simpl in Hw. apply andb_prop in Hw as [Hl Hw].
    destruct s as [|c s]; [done|]. intros [= H1 H2]. simpl.
    rewrite (IH Hw s H2), andb_true_r.
    revert Hl. subst l. unfold plain_letter, ascii_tolower, is_ascii. n_cases.
Qed.

(** X2.  The key a correction is counted under, the result lower-cased,
    is one of the twelve listed words, and it is the result's ASCII
    lower-casing. *)
Theorem counted_key_is_listed text s :
  find_misspelling text = Some s ->
  py_lower s ∈ MISSPELLING_WORDS /\ py_lower s = List.map ascii_tolower s.
Proof.
  intros Hs.
  destruct (found_in_order text s Hs) as (k & w & Hk & _ & (pre & post & Hocc & _) & _).
  destruct Hocc as (_ & Hcase & _).
  assert (Hw : plain_word w = true).
  { pose proof misspelling_words_plain as Hall.
    rewrite Forall_forall in Hall. apply Hall.
    by apply list_elem_of_lookup_2 in Hk. }
  unfold any_casing in Hcase. rewrite (plain_word_folded w Hw) in Hcase.
  assert (Hpl : forallb plain_letter w = true) by (by destruct w).
  unfold py_lower. rewrite (folded_ascii w Hpl s Hcase), Hcase.
  split; [|done]. by apply list_elem_of_lookup_2 in Hk.
Qed.
End Reply_facts.

Section Store_more.
Context {rt : PyRuntime}.

Lemma load_stats_try_frame w : (load_stats_try w).2 = w.
Proof.
  destruct (file w) as [|e|e|e|text] eqn:Hf.
  - unfold load_stats_try, try_except, mbind, M_bind, open_read. by rewrite Hf.
  - unfold load_stats_try, try_except, mbind, M_bind, open_read. by rewrite Hf.
  - rewrite (load_stats_try_unreadable w e); [done|by left].
  - rewrite (load_stats_try_unreadable w e); [done|by right].
  - rewrite (load_stats_try_content w text Hf). by destruct (json_loads text) as [|[]].
Qed.

Lemma merged_keys t d : has_stats_keys (PDict (merged t d)).
Proof.
  unfold has_stats_keys. simpl. rewrite !merged_lookup.
  repeat split.
  - destruct (d !! str "start_time"); [eauto|]. by eexists.
  - destruct (d !! str "total_corrections"); [eauto|]. by eexists.
  - destruct (d !! str "misspellings"); [eauto|]. by eexists.
Qed.

Lemma default_stats_keys t : has_stats_keys (PDict (default_stats t)).
Proof. repeat split; by eexists. Qed.

(** [load_stats] leaves the world as it is; it raises when [exists] does,
    and returns a dict with the three keys otherwise. *)
Lemma load_stats_frame_keys w :
  (load_stats w).2 = w /\
  ((exists e, file w = StatFails e /\ (load_stats w).1 = inl e) \/
   (forall e, file w <> StatFails e) /\
   exists d, (load_stats w).1 = inr (PDict d) /\ has_stats_keys (PDict d)).
Proof.
  destruct (file w) as [|e|e|e|text] eqn:Hf.
  - rewrite load_stats_absent by done. split; [done|]. right. split; [done|].
    eexists. split; [done|]. apply default_stats_keys.
  - rewrite (load_stats_stat_fails w e Hf). split; [done|]. left. by exists e.
  - rewrite (load_stats_unreadable w e) by (by left).
    split; [done|]. right. split; [done|]. eexists. split; [done|].
    apply default_stats_keys.
  - rewrite (load_stats_unreadable w e) by (by right).
    split; [done|]. right. split; [done|]. eexists. split; [done|].
    apply default_stats_keys.
  - rewrite (load_stats_content w text Hf).
    destruct (json_loads text) as [e|[]]; simpl; (split; [done|]); right;
      (split; [done|]); eexists; (split; [done|]);
      try apply default_stats_keys. apply merged_keys.
Qed.

Lemma print_file line w : file (print line w).2 = file w.
Proof. done. Qed.

Lemma save_stats_file stats w :
  file (save_stats stats w).2 = file (write_stats stats w).2.
Proof.
  rewrite save_stats_unfold. by destruct (write_stats stats w) as [[e|[]] w1].
Qed.

(** X4.  [save_stats] overwrites: if the file cannot be opened for writing
    it is left as it was; a file the process may write and not read stays
    one; otherwise, for a file the process can read back, what the file held
    is gone and it holds a prefix of the text the encoder produced: all of
    it when the write succeeded, and when it failed as much as reached the
    disk, which may end inside a chunk. *)
Theorem save_stats_overwrites stats w :
  (forall e, (open_write w).1 = inl e -> file (save_stats stats w).2 = file w) /\
  (forall e, file w = Unreadable e -> file (save_stats stats w).2 = Unreadable e) /\
  (open_fault w = None -> readable_back w = true ->
   exists written,
     written `prefix_of` concat (json_iterencode stats).1 /\
     file (save_stats stats w).2 = Content written /\
     ((write_stats stats w).1 = inr tt -> written = concat (json_iterencode stats).1)).
Proof.
  rewrite save_stats_file. split; [|split].
  - intros e He. rewrite write_stats_unfold. pose proof (open_write_fails w e He) as Hw.
    destruct (open_write w) as [[e'|[]] w']; [|done]. simpl in *. by subst w'.
  - intros e He. rewrite write_stats_unfold. unfold open_write. rewrite He.
    destruct (open_fault w); [done|].
    destruct (fp_close_file w (concat (json_iterencode stats).1))
      as (written & _ & Hfile & _).
    rewrite He in Hfile. by destruct (fp_close _) as [[e'|[]] w''].
  - intros Hopen Hr.
    destruct (write_stats_file stats w Hopen Hr) as (written & Hpre & Hfile & Hall).
    exists written. split; [done|]. split; [done|]. intros Hok. by apply Hall.
Qed.

Lemma record_correction_failure misspelling stats e stats' :
  record_correction misspelling stats = (inl e, stats') ->
  field stats' (str "misspellings") = field stats (str "misspellings") /\
  (stats' = stats \/
   exists d total total',
     stats = PDict d /\ d !! str "total_corrections" = Some total /\
     py_add1 total = inr total' /\
     stats' = PDict (<[str "total_corrections" := total']> d)).
Proof.
  unfold record_correction.
  destruct stats as [| | | | | |d];
    try (simpl; intros [= <- <-]; split; [done|by left]).
  simpl. destruct (d !! str "total_corrections") as [total|] eqn:Ht; simpl;
    [|intros [= <- <-]; split; [done|by left]].
  destruct (py_add1 total) as [e1|total'] eqn:Hadd; simpl;
    [intros [= <- <-]; split; [done|by left]|].
  rewrite lookup_insert_ne by done.
  assert (Hpart : exists d0 total0 total0',
       PDict d = PDict d0 /\ d0 !! str "total_corrections" = Some total0 /\
       py_add1 total0 = inr total0' /\
       PDict (<[str "total_corrections" := total']> d)
       = PDict (<[str "total_corrections" := total0']> d0))
    by (by exists d, total, total').
  destruct (d !! str "misspellings") as [counts|] eqn:Hms; simpl.
  2: { intros [= <- <-]. simpl. rewrite lookup_insert_ne, Hms by done.
       split; [done|by right]. }
  destruct counts as [| | | | | |counts];
    try (simpl; intros [= <- <-]; simpl; rewrite lookup_insert_ne, Hms by done;
         split; [done|by right]).
  simpl. set (key := py_lower misspelling).
  destruct (counts !! key) as [count|] eqn:Hk; simpl.
  - rewrite lookup_insert_eq. simpl. rewrite Hk. simpl.
    destruct (py_add1 count) as [e2|count'] eqn:Hadd2; simpl; [|done].
    intros [= <- <-]. simpl. rewrite lookup_insert_eq.
    split; [done|]. right. exists d, total, total'.
    repeat split; try done. f_equal. apply insert_id.
    by rewrite lookup_insert_ne.
  - rewrite lookup_insert_eq. simpl. rewrite lookup_insert_eq. simpl. done.
Qed.
(** X3.  [load_stats] changes nothing outside the process: no write and
    no printed line, whether it returns what the file holds, falls back or
    raises.  It raises only when [STATS_PATH.exists()] does, with that
    error; whenever it returns, the result is a dict that holds the three
    keys. *)
Theorem load_stats_reads_only w :
  (load_stats w).2 = w /\
  (forall e, (load_stats w).1 = inl e <-> file w = StatFails e) /\
  (forall stats, (load_stats w).1 = inr stats ->
     exists d, stats = PDict d /\ has_stats_keys (PDict d)).
Proof.
  destruct (load_stats_frame_keys w)
    as [Hw [(e0 & Hf & Hl)|(Hf & d & Hl & Hkeys)]]; (split; [done|]);
    rewrite Hl; split.
  - intros e. rewrite Hf. split; congruence.
  - done.
  - intros e. split; [done|]. intros He. by destruct (Hf e).
  - intros stats [= <-]. by exists d.
Qed.

(** X5.  A correction that raises leaves the counts as they were; the
    stats are unchanged, or changed only in the total, already incremented
    by line 157. *)
Theorem failed_correction_leaves_counts misspelling stats e stats' :
  record_correction misspelling stats = (inl e, stats') ->
  field stats' (str "misspellings") = field stats (str "misspellings") /\
  (stats' = stats \/
   exists d total total',
     stats = PDict d /\ d !! str "total_corrections" = Some total /\
     py_add1 total = inr total' /\
     stats' = PDict (<[str "total_corrections" := total']> d)).
Proof. apply record_correction_failure. Qed.
End Store_more.

Section Config_facts.
Context {rt : PyRuntime} {tx : PyText}.

Lemma replace_char_gone old new s : old <> new -> old ∉ replace_char old new s.
Proof.
  intros Hne Hin. unfold replace_char in Hin.
  apply list_elem_of_In, in_map_iff in Hin as (c & Hc & _).
  destruct (N.eqb_spec c old); congruence.
Qed.

Lemma split_on_nonempty sep s : split_on sep s <> [].
Proof.
  induction s as [|c s IH]; [done|]. simpl.
  destruct (c =? sep); [done|]. by destruct (split_on sep s).
Qed.

Lemma split_on_replace old new s :
  new ∉ s -> split_on new (replace_char old new s) = split_on old s.
Proof.
  induction s as [|c s IH]; intros Hnew; [done|].
  apply not_elem_of_cons in Hnew as [Hc Hnew]. unfold replace_char. simpl.
  fold (replace_char old new s).
  destruct (N.eqb_spec c old) as [->|Hco]; simpl.
  - rewrite N.eqb_refl. f_equal. by apply IH.
  - destruct (N.eqb_spec c new) as [->|_]; [done|]. by rewrite IH.
Qed.

Lemma subreddit_names_run w :
  subreddit_names_setup w
  = (inr (replace_char 44 43 (default (str "reddevils") (environ w !! str "SUBREDDITS"))), w).
Proof. reflexivity. Qed.

(** X8.  The subreddit names are the configured ones, or "reddevils",
    with every comma turned into a plus: no comma is left, the length is
    kept, and splitting on the plus gives what splitting the configured
    value on commas gives, when it holds no plus. *)
Theorem subreddit_names_joined w :
  let raw := default (str "reddevils") (environ w !! str "SUBREDDITS") in
  exists names,
    subreddit_names_setup w = (inr names, w) /\
    (44 ∉ names) /\
    length names = length raw /\
    (43 ∉ raw -> split_on 43 names = split_on 44 raw).
Proof.
  intros raw. exists (replace_char 44 43 raw). split; [done|].
  split; [by apply replace_char_gone|].
  split; [apply length_map|]. apply split_on_replace.
Qed.

Lemma lstrip_keeps c s : c ∈ s -> is_space c = false -> c ∈ lstrip s.
Proof.
  induction s as [|a s IH]; intros Hin Hc; [done|]. simpl.
  destruct (is_space a) eqn:Ha; [|done].
  apply elem_of_cons in Hin as [->|Hin]; [congruence|by apply IH].
Qed.

Lemma elem_of_rev (c : N) s : c ∈ rev s <-> c ∈ s.
Proof. rewrite !list_elem_of_In. symmetry. apply in_rev. Qed.

Lemma strip_keeps c s : c ∈ s -> is_space c = false -> c ∈ strip s.
Proof.
  intros Hin Hc. unfold strip.
  apply elem_of_rev, lstrip_keeps; [|done]. by apply elem_of_rev, lstrip_keeps.
Qed.

Lemma parse_digits_junk c : forall s acc after_digit,
  c ∈ s -> digit_val c = None -> c <> 95 -> parse_digits s acc after_digit = None.
Proof.
  induction s as [|a s IH]; intros acc after_digit Hin Hd Hu; [by apply elem_of_nil in Hin|].
  simpl. apply elem_of_cons in Hin as [<-|Hin].
  - rewrite Hd. by destruct (N.eqb_spec c 95).
  - destruct (digit_val a); [by apply IH|].
    destruct ((a =? 95) && after_digit); [by apply IH|done].
Qed.

Lemma parse_signed_junk c s :
  c ∈ s -> int_char c = false -> parse_signed (strip s) = None.
Proof.
  intros Hin Hc.
  assert (Hparts : digit_val c = None /\ c <> 95 /\ c <> 43 /\ c <> 45 /\ is_space c = false).
  { unfold int_char, digit_val in *.
    destruct (is_space c); [by rewrite orb_true_r in Hc|].
    repeat split; n_cases. }
  destruct Hparts as (Hd & Hu & Hp & Hm & Hs).
  pose proof (strip_keeps c s Hin Hs) as Hin'.
  unfold parse_signed. destruct (strip s) as [|a s']; [done|].
  destruct (N.eqb_spec a 45) as [->|_].
  - apply elem_of_cons in Hin' as [?|Hin']; [done|].
    by rewrite (parse_digits_junk c s' _ _ Hin' Hd Hu).
  - destruct (N.eqb_spec a 43) as [->|_].
    + apply elem_of_cons in Hin' as [?|Hin']; [done|].
      by apply (parse_digits_junk c).
    + by apply (parse_digits_junk c).
Qed.

(** X7.  A configured interval with a character that is no digit, sign,
    underscore or white space stops the setup with [ValueError], before
    anything is printed: it does not fall back to the default. *)
Theorem malformed_interval_is_fatal w raw c :
  environ w !! str "POLL_INTERVAL_SECONDS" = Some raw ->
  forallb is_ascii raw = true -> (length raw <= 4300)%nat ->
  c ∈ raw -> int_char c = false ->
  poll_interval_setup w = (raise_on ValueError (PStr raw), w).
Proof.
  intros Henv Hascii Hlen Hin Hc.
  unfold poll_interval_setup, mbind, M_bind, getenv, lift. rewrite Henv. simpl.
  unfold py_int. rewrite Hascii. simpl.
  destruct (Nat.leb_spec (length raw) 4300) as [_|?]; [|lia].
  by rewrite (parse_signed_junk c raw Hin Hc).
Qed.

End Config_facts.

Section Loop_facts.
Context {rt : PyRuntime} {tx : PyText}.

Lemma starts_with_spec prefix : forall s,
  starts_with prefix s = true <-> exists after, s = prefix ++ after.
Proof.
  induction prefix as [|a prefix IH]; intros s; simpl.
  - split; [by exists s|done].
  - destruct s as [|b s]; [split; [done|by intros [? ?]]|].
    rewrite andb_true_iff, IH. split.
    + intros [Hab [after ->]]. apply N.eqb_eq in Hab as ->. by exists after.
    + intros [after [= -> ->]]. split; [apply N.eqb_refl|by exists after].
Qed.

Lemma str_in_spec needle : forall hay,
  str_in needle hay = true <-> exists before after, hay = before ++ needle ++ after.
Proof.
  induction hay as [|c hay IH]; simpl.
  - rewrite orb_false_r, starts_with_spec. split.
    + intros [after ->]. by exists [], after.
    + intros (before & after & Heq). destruct before; [by exists after|done].
  - rewrite orb_true_iff, starts_with_spec, IH. split.
    + intros [[after ->]|(before & after & ->)]; [by exists [], after|].
      by exists (c :: before), after.
    + intros (before & after & Heq). destruct before as [|c' before].
      * left. by exists after.
      * injection Heq as <- ->. right. by exists before, after.
Qed.

Lemma title_allows_spec limit c :
  title_allows limit c = inr true -> thread_allowed limit c.
Proof.
  intros Hallow wanted -> Hne. destruct wanted as [|ch wanted]; [done|].
  simpl in Hallow. destruct (submission_title c) as [e|title]; [done|].
  simpl in Hallow. injection Hallow as Hin.
  apply str_in_spec in Hin as (before & after & Heq). by exists title, before, after.
Qed.

Lemma is_self_spec c me : is_self c me = inr true <-> own_comment c me.
Proof.
  unfold is_self, own_comment. split.
  - destruct (author c) as [name|]; [|done]. destruct me as [e|me_name]; [done|].
    simpl. intros [= Heq]. apply bool_decide_eq_true in Heq. by exists name, me_name.
  - intros (name & me_name & -> & -> & Heq). simpl. by rewrite bool_decide_eq_true_2.
Qed.

Lemma save_stats_returns stats w : (save_stats stats w).1 = inr tt.
Proof. rewrite save_stats_unfold. by destruct (write_stats stats w) as [[e|[]] w1]. Qed.

(** [correct_comment], outcome by outcome. *)
Lemma correct_comment_run c m b :
  match reply_fault c, save_fault c with
  | Some e, _ => correct_comment c m b = (inl e, b)
  | None, Some e =>
      correct_comment c m b
      = (inl e, Bot (stats b) (outside b) (did b ++ [Reply c (reply_text m)]))
  | None, None =>
      let acts := did b ++ [Reply c (reply_text m); MarkSaved c] in
      match record_correction m (stats b) with
      | (inl e, s') => correct_comment c m b = (inl e, Bot s' (outside b) acts)
      | (inr _, s') =>
          let w' := (save_stats s' (outside b)).2 in
          match py_getitem s' (str "total_corrections") with
          | inl e => correct_comment c m b = (inl e, Bot s' w' acts)
          | inr total =>
              correct_comment c m b
              = (inr tt, Bot s' (print (corrected_line m total) w').2 acts)
          end
      end
  end.
Proof.
  unfold correct_comment, comment_reply, comment_save, mbind, M_bind, lift, perform.
  destruct b as [s w acts]. simpl.
  destruct (reply_fault c) as [e|]; [done|].
  destruct (save_fault c) as [e|]; [done|]. simpl.
  unfold on_stats. simpl. rewrite <- app_assoc. simpl.
  destruct (record_correction m s) as [[e|[]] s']; [done|].
  unfold get_stats, on_world. simpl.
  pose proof (save_stats_returns s' w) as Hret.
  destruct (save_stats s' w) as [[e|[]] w']; [done|]. simpl.
  by destruct (py_getitem s' (str "total_corrections")).
Qed.

(** [handle_comment], filter by filter. *)
Lemma handle_comment_run limit c me b :
  handle_comment limit c me b =
  match ensure_misspellings (stats b) with
  | (inl e, s) => (inl e, Bot s (outside b) (did b))
  | (inr _, s1) =>
      let b1 := Bot s1 (outside b) (did b) in
      match title_allows limit c with
      | inl e => (inl e, b1)
      | inr false => (inr tt, b1)
      | inr true =>
          match is_self c me with
          | inl e => (inl e, b1)
          | inr true => (inr tt, b1)
          | inr false =>
              match find_misspelling (body c) with
              | None => (inr tt, b1)
              | Some m => if saved c then (inr tt, b1) else correct_comment c m b1
              end
          end
      end
  end.
Proof.
  unfold handle_comment, mbind at 1, M_bind at 1, on_stats.
  destruct (ensure_misspellings (stats b)) as [[e|[]] s1]; [done|].
  unfold mbind at 1, M_bind at 1, lift.
  destruct (title_allows limit c) as [e|[|]]; try done.
  simpl. unfold mbind at 1, M_bind at 1.
  destruct (is_self c me) as [e|[|]]; try done.
  simpl. destruct (find_misspelling (body c)); [|done]. by destruct (saved c).
Qed.

Lemma ensure_misspellings_ok stats total counts :
  counts_of stats = Some (total, counts) -> ensure_misspellings stats = (inr tt, stats).
Proof.
  intros Hc. apply counts_of_inv in Hc as (d & t & -> & _ & _ & Hms).
  unfold ensure_misspellings. simpl. by rewrite Hms.
Qed.

(** X10.  Handling a comment adds no action, or a reply to that comment
    with the text for the misspelling found in its body, followed at most by
    the save mark; a reply is sent only for a comment that is not saved, is
    not the bot's own and passes the title filter. *)
Theorem replies_only_when_due limit c me b :
  let b' := (handle_comment limit c me b).2 in
  did b' = did b \/
  exists m tail,
    did b' = did b ++ Reply c (reply_text m) :: tail /\
    (tail = [] \/ tail = [MarkSaved c]) /\
    find_misspelling (body c) = Some m /\
    saved c = false /\
    ~ own_comment c me /\
    thread_allowed limit c.
Proof.
  simpl. rewrite handle_comment_run.
  destruct (ensure_misspellings (stats b)) as [[e|[]] s1]; [by left|]. simpl.
  destruct (title_allows limit c) as [e|[|]] eqn:Hallow; try (by left).
  destruct (is_self c me) as [e|[|]] eqn:Hself; try (by left).
  destruct (find_misspelling (body c)) as [m|] eqn:Hfind; [|by left].
  destruct (saved c) eqn:Hsaved; [by left|].
  assert (Hnot : ~ own_comment c me).
  { intros Hown. apply is_self_spec in Hown. congruence. }
  pose proof (title_allows_spec limit c Hallow) as Hthread.
  pose proof (correct_comment_run c m (Bot s1 (outside b) (did b))) as Hrun.
  destruct (reply_fault c) as [e|]; [rewrite Hrun; by left|].
  right. exists m. simpl in Hrun.
  destruct (save_fault c) as [e|].
  { rewrite Hrun. exists []. simpl. eauto 10. }
  exists [MarkSaved c].
  destruct (record_correction m s1) as [[e|[]] s'].
  { rewrite Hrun. simpl. eauto 10. }
  destruct (py_getitem s' (str "total_corrections")); rewrite Hrun; simpl; eauto 10.
Qed.

(** X11.  When the reply or the save mark raises, the comment is not
    counted: the stats stay as line 135 leaves them, the file and the output
    are untouched, and no save mark is added. *)
Theorem failed_reply_is_not_counted limit c me b e :
  reply_fault c = Some e \/ save_fault c = Some e ->
  let b' := (handle_comment limit c me b).2 in
  stats b' = (ensure_misspellings (stats b)).2 /\
  outside b' = outside b /\
  count_marks (did b') = count_marks (did b).
Proof.
  intros Hfault. simpl. rewrite handle_comment_run.
  destruct (ensure_misspellings (stats b)) as [[e0|[]] s1]; [done|]. simpl.
  destruct (title_allows limit c) as [e0|[|]]; try done.
  destruct (is_self c me) as [e0|[|]]; try done.
  destruct (find_misspelling (body c)) as [m|]; [|done].
  destruct (saved c); [done|].
  pose proof (correct_comment_run c m (Bot s1 (outside b) (did b))) as Hrun.
  destruct (reply_fault c) as [e1|]; [by rewrite Hrun|].
  destruct Hfault as [?|Hsave]; [done|]. rewrite Hsave in Hrun. rewrite Hrun. simpl.
  split; [done|]. split; [done|].
  unfold count_marks. rewrite List.filter_app. simpl. rewrite length_app. simpl. lia.
Qed.

Lemma kept_refl p b total counts :
  counts_of (stats b) = Some (total, counts) -> sum_values counts = Some total ->
  kept p b b total [].
Proof.
  intros Hc Hsum. split; [by rewrite app_nil_r|]. split.
  - exists counts. simpl. by rewrite Z.add_0_r.
  - split; [done|]. intros seconds Hin. by apply elem_of_nil in Hin.
Qed.

Lemma count_marks_app l1 l2 : count_marks (l1 ++ l2) = (count_marks l1 + count_marks l2)%nat.
Proof. unfold count_marks. by rewrite List.filter_app, length_app. Qed.

Lemma count_replies_app l1 l2 :
  count_replies (l1 ++ l2) = (count_replies l1 + count_replies l2)%nat.
Proof. unfold count_replies. by rewrite List.filter_app, length_app. Qed.

Lemma kept_trans p b1 b2 b3 total new1 new2 :
  kept p b1 b2 total new1 ->
  kept p b2 b3 (total + Z.of_nat (count_marks new1))%Z new2 ->
  kept p b1 b3 total (new1 ++ new2).
Proof.
  intros (Hd1 & _ & Hle1 & Hs1) (Hd2 & (counts' & Hc2 & Hsum2) & Hle2 & Hs2).
  split; [by rewrite Hd2, Hd1, app_assoc|]. split.
  - exists counts'. rewrite count_marks_app, Nat2Z.inj_add, Z.add_assoc. done.
  - split; [rewrite count_marks_app, count_replies_app; lia|].
    intros seconds Hin. apply elem_of_app in Hin as [Hin|Hin]; eauto.
Qed.

(** Printing and sleeping keep the stats. *)
Lemma kept_quiet p b w' total counts seconds :
  counts_of (stats b) = Some (total, counts) -> sum_values counts = Some total ->
  seconds = p \/ seconds = 60%Z ->
  kept p b (Bot (stats b) w' (did b ++ [Sleep seconds])) total [Sleep seconds].
Proof.
  intros Hc Hsum Hsec. split; [done|]. split.
  - exists counts. simpl. by rewrite Z.add_0_r.
  - split; [done|]. intros s Hin. apply list_elem_of_singleton in Hin. congruence.
Qed.

Lemma on_error_run e b :
  on_error e b
  = (inr tt, Bot (stats b) (print (error_line e) (outside b)).2 (did b ++ [Sleep 60%Z])).
Proof. reflexivity. Qed.

Lemma handle_comment_kept p limit c me b total counts :
  counts_of (stats b) = Some (total, counts) -> sum_values counts = Some total ->
  exists new,
    kept p b (handle_comment limit c me b).2 total new /\
    forall seconds, Sleep seconds ∉ new.
Proof.
  intros Hc Hsum. rewrite handle_comment_run, (ensure_misspellings_ok _ _ _ Hc).
  assert (Hskip : exists new,
            kept p b (Bot (stats b) (outside b) (did b)) total new /\
            forall seconds, Sleep seconds ∉ new).
  { exists []. split; [|intros s Hin; by apply elem_of_nil in Hin].
    destruct b. by apply (kept_refl p _ total counts). }
  simpl. destruct (title_allows limit c) as [e|[|]]; try done.
  destruct (is_self c me) as [e|[|]]; try done.
  destruct (find_misspelling (body c)) as [m|]; [|done].
  destruct (saved c); [done|].
  pose proof (correct_comment_run c m (Bot (stats b) (outside b) (did b))) as Hrun.
  destruct (reply_fault c) as [e|]; [by rewrite Hrun|].
  destruct (save_fault c) as [e|].
  { rewrite Hrun. exists [Reply c (reply_text m)]. split.
    - split; [done|]. unfold count_marks, count_replies. simpl.
      split; [exists counts; by rewrite Z.add_0_r|].
      split; [lia|]. intros s Hin. by apply list_elem_of_singleton in Hin.
    - intros s Hin. by apply list_elem_of_singleton in Hin. }
  simpl in Hrun.
  destruct (record_correction_step m (stats b) total counts Hc) as (s' & Hrec & Hc' & _).
  { intros v. by apply (sum_values_typed counts total). }
  rewrite Hrec in Hrun.
  assert (Htotal : exists t, py_getitem s' (str "total_corrections") = inr t).
  { pose proof Hc' as Hinv. apply counts_of_inv in Hinv as (d' & t & -> & Ht & _).
    exists t. simpl. by rewrite Ht. }
  destruct Htotal as [t Ht]. rewrite Ht in Hrun. rewrite Hrun.
  exists [Reply c (reply_text m); MarkSaved c]. split.
  - split; [done|]. unfold count_marks, count_replies. simpl. split.
    + eexists. split; [exact Hc'|]. by apply sum_values_bump.
    + split; [lia|]. intros s Hin.
      apply elem_of_cons in Hin as [?|Hin]; [done|]. by apply list_elem_of_singleton in Hin.
  - intros s Hin.
    apply elem_of_cons in Hin as [?|Hin]; [done|]. by apply list_elem_of_singleton in Hin.
Qed.

Lemma poll_step_kept p limit ev b total counts :
  counts_of (stats b) = Some (total, counts) -> sum_values counts = Some total ->
  exists b' new, poll_step p limit ev b = (inr tt, b') /\ kept p b b' total new.
Proof.
  intros Hc Hsum. unfold poll_step, try_except. destruct ev as [c me| |e|].
  - destruct (handle_comment_kept p limit c me b total counts Hc Hsum) as (new & Hkept & Hno).
    destruct (handle_comment limit c me b) as [[e|[]] b1]; simpl in Hkept.
    + rewrite on_error_run. eexists _, (new ++ [Sleep 60%Z]). split; [done|].
      destruct Hkept as (Hd & (counts' & Hc' & Hsum') & Hle & Hs).
      eapply kept_trans; [by repeat split; eauto|].
      eapply kept_quiet; eauto.
    + by exists b1, new.
  - eexists _, [Sleep p]. split; [done|]. eapply (kept_quiet p b); eauto.
  - eexists _, [Sleep 60%Z]. split; [reflexivity|].
    eapply (kept_quiet p b); eauto.
  - exists b, []. split; [done|]. by apply (kept_refl p b total counts).
Qed.

End Loop_facts.

Section Restart_facts.
Context {rt : PyRuntime} {tx : PyText}.

Lemma keeps_keys_refl obj : keeps_keys obj obj.
Proof. by intros key. Qed.

Lemma keeps_keys_trans a b c : keeps_keys a b -> keeps_keys b c -> keeps_keys a c.
Proof. intros Hab Hbc key Hk. by apply Hbc, Hab. Qed.

Lemma keeps_keys_insert d key value : keeps_keys (PDict d) (PDict (<[key := value]> d)).
Proof.
  intros k Hk. simpl in *. rewrite lookup_insert. by case_decide.
Qed.

Lemma py_setitem_keeps obj key value obj' :
  py_setitem obj key value = inr obj' -> keeps_keys obj obj'.
Proof.
  destruct obj; try done. simpl. intros [= <-]. apply keeps_keys_insert.
Qed.

Lemma py_setdefault_keeps obj key value obj' :
  py_setdefault obj key value = inr obj' -> keeps_keys obj obj'.
Proof.
  destruct obj as [| | | | | |d]; try done. simpl.
  destruct (d !! key); intros [= <-]; [apply keeps_keys_refl|apply keeps_keys_insert].
Qed.

Lemma ensure_misspellings_keeps stats :
  keeps_keys stats (ensure_misspellings stats).2.
Proof.
  unfold ensure_misspellings.
  destruct (py_setdefault stats _ _) as [e|s'] eqn:Hs; simpl;
    [apply keeps_keys_refl|by eapply py_setdefault_keeps].
Qed.

Lemma record_correction_keeps misspelling stats :
  keeps_keys stats (record_correction misspelling stats).2.
Proof.
  unfold record_correction.
  destruct (py_getitem stats _ ≫= _) as [e|s1] eqn:H1; simpl; [apply keeps_keys_refl|].
  assert (K1 : keeps_keys stats s1).
  { destruct (py_getitem stats (str "total_corrections")) as [|t]; [done|]. simpl in H1.
    destruct (py_add1 t) as [|t']; [done|]. simpl in H1. by eapply py_setitem_keeps. }
  destruct (py_getitem s1 _ ≫= _) as [e|s2] eqn:H2; simpl; [done|].
  assert (K2 : keeps_keys s1 s2).
  { destruct (py_getitem s1 (str "misspellings")) as [|c]; [done|]. simpl in H2.
    destruct (py_setdefault c _ _) as [|c']; [done|]. simpl in H2.
    by eapply py_setitem_keeps. }
  destruct (py_getitem s2 _ ≫= _) as [e|s3] eqn:H3; simpl;
    [by eapply keeps_keys_trans|].
  eapply keeps_keys_trans; [exact K1|]. eapply keeps_keys_trans; [exact K2|].
  destruct (py_getitem s2 (str "misspellings")) as [|c]; [done|]. simpl in H3.
  destruct (py_getitem c _) as [|n]; [done|]. simpl in H3.
  destruct (py_add1 n) as [|n']; [done|]. simpl in H3.
  destruct (py_setitem c _ n') as [|c']; [done|]. simpl in H3.
  by eapply py_setitem_keeps.
Qed.

Lemma correct_comment_keeps c m b :
  keeps_keys (stats b) (stats (correct_comment c m b).2).
Proof.
  pose proof (correct_comment_run c m b) as Hrun.
  pose proof (record_correction_keeps m (stats b)) as Hk.
  destruct (reply_fault c); [rewrite Hrun; apply keeps_keys_refl|].
  destruct (save_fault c); [rewrite Hrun; apply keeps_keys_refl|].
  simpl in Hrun. destruct (record_correction m (stats b)) as [[e|[]] s']; [by rewrite Hrun|].
  by destruct (py_getitem s' (str "total_corrections")); rewrite Hrun.
Qed.

Lemma handle_comment_keeps limit c me b :
  keeps_keys (stats b) (stats (handle_comment limit c me b).2).
Proof.
  rewrite handle_comment_run.
  pose proof (ensure_misspellings_keeps (stats b)) as Hk.
  destruct (ensure_misspellings (stats b)) as [[e|[]] s1]; [done|]. simpl in *.
  destruct (title_allows limit c) as [e|[|]]; try done.
  destruct (is_self c me) as [e|[|]]; try done.
  destruct (find_misspelling (body c)) as [m|]; [|done].
  destruct (saved c); [done|].
  eapply keeps_keys_trans; [exact Hk|].
  apply (correct_comment_keeps c m (Bot s1 (outside b) (did b))).
Qed.

Lemma poll_step_keeps p limit ev b :
  keeps_keys (stats b) (stats (poll_step p limit ev b).2).
Proof.
  unfold poll_step, try_except. destruct ev as [c me| |e|]; try apply keeps_keys_refl.
  pose proof (handle_comment_keeps limit c me b) as Hk.
  by destruct (handle_comment limit c me b) as [[e|[]] b1].
Qed.

Lemma run_events_keeps p limit events : forall b,
  keeps_keys (stats b) (stats (run_events p limit events b).2).
Proof.
  induction events as [|ev events IH]; intros b; [apply keeps_keys_refl|].
  cbn [run_events]. unfold mbind, M_bind.
  pose proof (poll_step_keeps p limit ev b) as Hk.
  destruct (poll_step p limit ev b) as [[e|[]] b1]; [done|].
  eapply keeps_keys_trans; [exact Hk|apply IH].
Qed.

Lemma has_stats_keys_kept obj obj' :
  has_stats_keys obj -> keeps_keys obj obj' -> has_stats_keys obj'.
Proof. intros (H1 & H2 & H3) Hk. repeat split; by apply Hk. Qed.

Lemma has_stats_keys_dict obj : has_stats_keys obj -> exists d, obj = PDict d.
Proof. intros ([v Hv] & _). destruct obj; try done. by eexists. Qed.

Lemma graceful_exit_run stats w :
  graceful_exit stats w = (inr 0%Z, (save_stats stats (print SHUTDOWN_LINE w).2).2).
Proof.
  unfold graceful_exit, mbind, M_bind. simpl.
  pose proof (save_stats_returns stats (print SHUTDOWN_LINE w).2) as Hret.
  by destruct (save_stats stats _) as [[e|[]] w'].
Qed.

Lemma write_stats_readable stats w :
  readable_back w = true -> readable_back (write_stats stats w).2 = true.
Proof.
  intros Hr. rewrite write_stats_unfold.
  destruct (open_fault w) as [e|] eqn:Hopen.
  - unfold open_write. by rewrite Hopen.
  - rewrite (open_write_readable w Hopen Hr).
    destruct (fp_close_file (set_file (Content []) w) (concat (json_iterencode stats).1))
      as (written & _ & Hfile & _).
    destruct (fp_close _) as [[e|[]] w'']; simpl in *; unfold readable_back;
      by rewrite Hfile.
Qed.

Lemma save_stats_readable stats w :
  readable_back w = true -> readable_back (save_stats stats w).2 = true.
Proof.
  intros Hr. rewrite save_stats_unfold.
  pose proof (write_stats_readable stats w Hr) as Hw.
  by destruct (write_stats stats w) as [[e|[]] w1].
Qed.

Lemma correct_comment_readable c m b :
  readable_back (outside b) = true ->
  readable_back (outside (correct_comment c m b).2) = true.
Proof.
  intros Hr. pose proof (correct_comment_run c m b) as Hrun.
  pose proof (save_stats_readable (record_correction m (stats b)).2 (outside b) Hr) as Hs.
  destruct (reply_fault c); [by rewrite Hrun|].
  destruct (save_fault c); [by rewrite Hrun|].
  simpl in Hrun. destruct (record_correction m (stats b)) as [[e|[]] s']; [by rewrite Hrun|].
  by destruct (py_getitem s' (str "total_corrections")); rewrite Hrun.
Qed.

Lemma handle_comment_readable limit c me b :
  readable_back (outside b) = true ->
  readable_back (outside (handle_comment limit c me b).2) = true.
Proof.
  intros Hr. rewrite handle_comment_run.
  destruct (ensure_misspellings (stats b)) as [[e|[]] s1]; [done|]. simpl.
  destruct (title_allows limit c) as [e|[|]]; try done.
  destruct (is_self c me) as [e|[|]]; try done.
  destruct (find_misspelling (body c)) as [m|]; [|done].
  destruct (saved c); [done|].
  by apply (correct_comment_readable c m (Bot s1 (outside b) (did b))).
Qed.

Lemma poll_step_readable p limit ev b :
  readable_back (outside b) = true ->
  readable_back (outside (poll_step p limit ev b).2) = true.
Proof.
  intros Hr. unfold poll_step, try_except. destruct ev as [c me| |e|]; try done.
  pose proof (handle_comment_readable limit c me b Hr) as Hk.
  by destruct (handle_comment limit c me b) as [[e|[]] b1].
Qed.

Lemma run_events_readable p limit events : forall b,
  readable_back (outside b) = true ->
  readable_back (outside (run_events p limit events b).2) = true.
Proof.
  induction events as [|ev events IH]; intros b Hr; [done|].
  cbn [run_events]. unfold mbind, M_bind.
  pose proof (poll_step_readable p limit ev b Hr) as Hk.
  destruct (poll_step p limit ev b) as [[e|[]] b1]; [done|].
  by apply IH.
Qed.

End Restart_facts.

Ltac have_credential Hbefore w j :=
  let v := fresh "v" in
  let Hv := fresh "Hv" in
  destruct (Hbefore j _ ltac:(lia) eq_refl) as [v Hv];
  unfold mbind at 1, M_bind at 1; unfold environ_item at 1; rewrite Hv.

Ltac lack_credential Hmiss :=
  unfold mbind at 1, M_bind at 1; unfold environ_item at 1; rewrite Hmiss; reflexivity.

Section Setup_facts.
Context {rt : PyRuntime} {tx : PyText}.

Lemma read_credentials_missing w k name :
  REQUIRED_ENV !! k = Some name ->
  environ w !! name = None ->
  (forall j earlier, (j < k)%nat -> REQUIRED_ENV !! j = Some earlier ->
                     is_Some (environ w !! earlier)) ->
  read_credentials w = (raise_on KeyError (PStr name), w).
Proof.
  intros Hk Hmiss Hbefore. unfold read_credentials.
  destruct k as [|[|[|[|[|k]]]]]; simpl in Hk; [..|done]; injection Hk as <-.
  - lack_credential Hmiss.
  - have_credential Hbefore w 0%nat. lack_credential Hmiss.
  - have_credential Hbefore w 0%nat. have_credential Hbefore w 1%nat.
    lack_credential Hmiss.
  - have_credential Hbefore w 0%nat. have_credential Hbefore w 1%nat.
    have_credential Hbefore w 2%nat. lack_credential Hmiss.
  - have_credential Hbefore w 0%nat. have_credential Hbefore w 1%nat.
    have_credential Hbefore w 2%nat. have_credential Hbefore w 3%nat.
    lack_credential Hmiss.
Qed.

(** X9.  If one of the five credentials is not set, the setup raises
    [KeyError] for the first one missing, in the order [main] reads them,
    and nothing is printed. *)
Theorem missing_credential_is_fatal STATS w k name :
  REQUIRED_ENV !! k = Some name ->
  environ w !! name = None ->
  (forall j earlier, (j < k)%nat -> REQUIRED_ENV !! j = Some earlier ->
                     is_Some (environ w !! earlier)) ->
  main_setup STATS w = (raise_on KeyError (PStr name), w).
Proof.
  intros Hk Hmiss Hbefore. unfold main_setup, mbind at 1, M_bind at 1.
  by rewrite (read_credentials_missing w k name Hk Hmiss Hbefore).
Qed.

Lemma load_stats_same w1 w2 :
  file w1 = file w2 -> now w1 = now w2 -> (load_stats w1).1 = (load_stats w2).1.
Proof.
  intros Hf Hn. destruct (file w1) as [|e|e|e|text] eqn:Hf1; symmetry in Hf.
  - by rewrite !load_stats_absent, Hn.
  - by rewrite (load_stats_stat_fails w1 e), (load_stats_stat_fails w2 e).
  - rewrite (load_stats_unreadable w1 e), (load_stats_unreadable w2 e) by (by left).
    simpl. by rewrite Hn.
  - rewrite (load_stats_unreadable w1 e), (load_stats_unreadable w2 e) by (by right).
    simpl. by rewrite Hn.
  - rewrite (load_stats_content w1 text), (load_stats_content w2 text) by done.
    destruct (json_loads text) as [e|[]]; simpl; by rewrite Hn.
Qed.

(** X14.  A comment that is due, on consistent stats and with a working
    Reddit: the bot replies, marks it saved, counts it, saves the stats and
    prints the line with the new total, in this order.  If moreover the
    stats hold the three keys, the file can be read back (it is not
    write-only), the write succeeds and the codec reads back what it wrote
    for the new stats, the file then loads back as the new stats. *)
Theorem due_comment_is_corrected limit c me b m total counts :
  counts_of (stats b) = Some (total, counts) ->
  sum_values counts = Some total ->
  title_allows limit c = inr true ->
  is_self c me = inr false ->
  find_misspelling (body c) = Some m ->
  saved c = false ->
  reply_fault c = None ->
  save_fault c = None ->
  exists stats',
    record_correction m (stats b) = (inr tt, stats') /\
    handle_comment limit c me b
    = (inr tt,
       Bot stats'
         (print (corrected_line m (PInt (total + 1)))
            (save_stats stats' (outside b)).2).2
         (did b ++ [Reply c (reply_text m); MarkSaved c])) /\
    (has_stats_keys (stats b) ->
     readable_back (outside b) = true ->
     (write_stats stats' (outside b)).1 = inr tt ->
     (forall chunks, json_iterencode stats' = (chunks, None) ->
                     json_loads (concat chunks) = inr stats') ->
     (load_stats (outside (handle_comment limit c me b).2)).1 = inr stats').
Proof.
  intros Hc Hsum Hallow Hself Hfind Hsaved Hreply Hsave.
  pose proof Hc as Hinv. apply counts_of_inv in Hinv as (d & t & Hd & _).
  assert (Hrec : record_correction m (stats b)
                 = (inr tt, PDict (bumped d total counts (py_lower m)))).
  { rewrite Hd. apply record_correction_typed; [by rewrite <- Hd|].
    intros v. by apply (sum_values_typed counts total). }
  exists (PDict (bumped d total counts (py_lower m))). split; [done|].
  assert (Hrun : handle_comment limit c me b
    = (inr tt,
       Bot (PDict (bumped d total counts (py_lower m)))
         (print (corrected_line m (PInt (total + 1)))
            (save_stats (PDict (bumped d total counts (py_lower m))) (outside b)).2).2
         (did b ++ [Reply c (reply_text m); MarkSaved c]))).
  { rewrite handle_comment_run, (ensure_misspellings_ok _ _ _ Hc). simpl.
    rewrite Hallow, Hself, Hfind, Hsaved.
    pose proof (correct_comment_run c m (Bot (stats b) (outside b) (did b))) as Hcc.
    rewrite Hreply, Hsave in Hcc. simpl in Hcc. rewrite Hrec in Hcc.
    assert (Ht : py_getitem (PDict (bumped d total counts (py_lower m)))
                   (str "total_corrections") = inr (PInt (total + 1))).
    { unfold bumped. simpl. rewrite lookup_insert_ne by done.
      by rewrite lookup_insert_eq. }
    by rewrite Ht in Hcc. }
  split; [done|]. intros Hkeys Hr Hok Hcodec. rewrite Hrun. simpl.
  rewrite <- (saved_stats_load_back _ (outside b)); [| |done|done|done].
  - by apply load_stats_same.
  - apply (has_stats_keys_kept _ _ Hkeys).
    pose proof (record_correction_keeps m (stats b)) as Hk. by rewrite Hrec in Hk.
Qed.
End Setup_facts.

Section Setup_more.
Context {rt : PyRuntime} {tx : PyText}.

Lemma read_credentials_returns w creds w' :
  read_credentials w = (inr creds, w') ->
  w' = w /\ forall name, name ∈ REQUIRED_ENV -> is_Some (environ w !! name).
Proof.
  unfold read_credentials, mbind, M_bind, environ_item.
  destruct (environ w !! str "REDDIT_CLIENT_ID") eqn:H1; [|done].
  destruct (environ w !! str "REDDIT_CLIENT_SECRET") eqn:H2; [|done].
  destruct (environ w !! str "REDDIT_AUTHOR_USERNAME") eqn:H3; [|done].
  destruct (environ w !! str "REDDIT_USERNAME") eqn:H4; [|done].
  destruct (environ w !! str "REDDIT_PASSWORD") eqn:H5; [|done].
  intros [= <- <-]. split; [done|]. intros name Hin. unfold REQUIRED_ENV in Hin.
  repeat (apply elem_of_cons in Hin as [->|Hin]; [eauto|]).
  by apply elem_of_nil in Hin.
Qed.

Lemma poll_interval_setup_returns w n w' :
  poll_interval_setup w = (inr n, w') ->
  (10 <= n)%Z /\ environ w' = environ w /\
  (stdout w' = stdout w \/ stdout w' = stdout w ++ [POLL_WARNING]).
Proof.
  unfold poll_interval_setup, mbind, M_bind, getenv, lift. simpl.
  destruct (py_int _) as [e|z]; [done|]. simpl.
  destruct (Z.ltb_spec z 10); simpl; intros [= <- <-]; simpl.
  - split; [lia|]. split; [done|]. by right.
  - split; [lia|]. split; [done|]. by left.
Qed.

(** X6.  When the setup of [main] returns, the poll interval is at least
    10, the subreddit names hold no comma, the five credentials were set,
    [STATS] holds a total, and the last line printed is the banner, preceded
    by the warning or by nothing. *)
Theorem setup_postcondition STATS w p names w' :
  main_setup STATS w = (inr (p, names), w') ->
  (10 <= p)%Z /\
  (44 ∉ names) /\
  (forall name, name ∈ REQUIRED_ENV -> is_Some (environ w !! name)) /\
  exists total,
    field STATS (str "total_corrections") = Some total /\
    last (stdout w') = Some (banner_line names p total) /\
    (stdout w' = stdout w ++ [banner_line names p total] \/
     stdout w' = stdout w ++ [POLL_WARNING; banner_line names p total]).
Proof.
  unfold main_setup. unfold mbind at 1, M_bind at 1.
  destruct (read_credentials w) as [[e|creds] w1] eqn:Hcred; [done|].
  apply read_credentials_returns in Hcred as [-> Hall].
  unfold mbind at 1, M_bind at 1.
  destruct (poll_interval_setup w) as [[e|n] w2] eqn:Hpoll; [done|].
  apply poll_interval_setup_returns in Hpoll as (Hn & Henv & Hout).
  unfold mbind at 1, M_bind at 1.
  rewrite (subreddit_names_run w2).
  assert (Hcomma : 44 ∉ replace_char 44 43
            (default (str "reddevils") (environ w2 !! str "SUBREDDITS")))
    by (by apply replace_char_gone).
  unfold mbind at 1, M_bind at 1, lift.
  destruct (py_getitem STATS (str "total_corrections")) as [e|total] eqn:Ht; [done|].
  unfold mbind, M_bind. simpl. intros [= <- <- <-].
  split; [done|]. split; [done|]. split; [done|]. exists total. split.
  - destruct STATS as [| | | | | |d]; try done. simpl in *.
    by destruct (d !! str "total_corrections") as [t|]; [injection Ht as ->|].
  - simpl. rewrite last_snoc. split; [done|].
    destruct Hout as [->| ->]; [by left|right]. by rewrite <- app_assoc.
Qed.
End Setup_more.

(** * Proofs: the small codec reads back what it wrote *)

Section Small_codec_facts.

Lemma digit_val_digit c : is_digit c = true -> digit_val c = Some (Z.of_N (c - 48)).
Proof. unfold digit_val, is_digit. by intros ->. Qed.

Lemma digit_val_other c : is_digit c = false -> digit_val c = None.
Proof. unfold digit_val, is_digit. by intros ->. Qed.

Lemma span_digits_end rest v : ends_number rest -> span_digits rest v true = Some (v, rest).
Proof.
  destruct rest as [|c rest]; [done|]. simpl. intros Hc. by rewrite digit_val_other.
Qed.

Lemma span_digits_app ds : forall rest a seen,
  forallb is_digit ds = true -> ds <> [] \/ seen = true -> ends_number rest ->
  span_digits (ds ++ rest) a seen = Some (digits_value ds a, rest).
Proof.
  induction ds as [|c ds IH]; intros rest a seen Hds Hseen Hrest.
  - destruct Hseen as [Hne|Hs]; [done|]. subst seen. by apply span_digits_end.
  - simpl in Hds. apply andb_true_iff in Hds as [Hc Hds].
    simpl. rewrite (digit_val_digit c Hc). apply IH; [done|by right|done].
Qed.

Lemma dec_of_N_fuel_digits fuel : forall n acc,
  0 < n -> n < 2 ^ N.of_nat fuel ->
  exists ds,
    dec_of_N_fuel fuel n acc = ds ++ acc /\ forallb is_digit ds = true /\
    ds <> [] /\ digits_value ds 0 = Z.of_N n.
Proof.
  induction fuel as [|fuel IH]; intros n acc Hpos Hlt.
  - simpl in Hlt. lia.
  - cbn [dec_of_N_fuel].
    assert (Hmod : n mod 10 < 10) by (apply N.mod_lt; lia).
    assert (Hdiv : n = 10 * (n / 10) + n mod 10) by (apply N.div_mod; lia).
    rewrite Nat2N.inj_succ, N.pow_succ_r' in Hlt.
    set (q := n / 10) in *. set (m := n mod 10) in *. clearbody q m.
    assert (Hd : is_digit (48 + m) = true).
    { unfold is_digit. apply andb_true_iff. split; apply N.leb_le; lia. }
    destruct (q =? 0) eqn:Hq.
    + apply N.eqb_eq in Hq. exists [48 + m].
      split; [done|]. split; [by simpl; rewrite Hd|]. split; [done|].
      unfold digits_value. simpl. lia.
    + apply N.eqb_neq in Hq.
      destruct (IH q ((48 + m) :: acc)) as (ds & Heq & Hds & Hne & Hval); [lia|lia|].
      exists (ds ++ [48 + m]). rewrite <- app_assoc. split; [done|].
      split; [by rewrite forallb_app, Hds; simpl; rewrite Hd|].
      split; [by destruct ds|].
      unfold digits_value in *. rewrite fold_left_app. simpl. rewrite Hval. lia.
Qed.

Lemma dec_of_N_digits n :
  exists ds,
    dec_of_N_fuel (S (N.to_nat (N.log2 n))) n [] = ds /\ forallb is_digit ds = true /\
    ds <> [] /\ digits_value ds 0 = Z.of_N n.
Proof.
  destruct (N.eq_dec n 0) as [->|Hn]; [by exists [48]|].
  destruct (dec_of_N_fuel_digits (S (N.to_nat (N.log2 n))) n []) as (ds & Heq & H);
    [lia| |].
  - rewrite Nat2N.inj_succ, N2Nat.id. apply N.log2_spec. lia.
  - exists ds. by rewrite Heq, app_nil_r.
Qed.

Lemma mini_parse_S f s :
  mini_parse (S f) s
  = match skip_ws s with
    | [] => None
    | c :: s1 =>
        if c =? 123 then
          match skip_ws s1 with
          | c2 :: s2 =>
              if c2 =? 125 then Some (PDict ∅, s2)
              else mini_members f (c2 :: s2) ∅
          | [] => None
          end
        else if c =? 34 then
          ks ← parse_string_body s1 []; Some (PStr ks.1, ks.2)
        else if c =? 45 then
          zs ← span_digits s1 0%Z false; Some (PInt (- zs.1), zs.2)
        else
          match strip_prefix (str "null") (c :: s1),
                strip_prefix (str "true") (c :: s1),
                strip_prefix (str "false") (c :: s1) with
          | Some r, _, _ => Some (PNone, r)
          | _, Some r, _ => Some (PBool true, r)
          | _, _, Some r => Some (PBool false, r)
          | _, _, _ => zs ← span_digits (c :: s1) 0%Z false; Some (PInt zs.1, zs.2)
          end
    end.
Proof. reflexivity. Qed.

Lemma mini_members_S f s acc :
  mini_members (S f) s acc
  = match skip_ws s with
    | c :: s1 =>
        if c =? 34 then
          ks ← parse_string_body s1 [];
          match skip_ws ks.2 with
          | c3 :: s3 =>
              if c3 =? 58 then
                vs ← mini_parse f s3;
                match skip_ws vs.2 with
                | c5 :: s5 =>
                    if c5 =? 44 then mini_members f s5 (<[ks.1 := vs.1]> acc)
                    else if c5 =? 125 then Some (PDict (<[ks.1 := vs.1]> acc), s5)
                    else None
                | [] => None
                end
              else None
          | [] => None
          end
        else None
    | [] => None
    end.
Proof. reflexivity. Qed.

Lemma strip_prefix_other p c' p' c s :
  p = c' :: p' -> c <> c' -> strip_prefix p (c :: s) = None.
Proof.
  intros -> Hne. unfold strip_prefix. rewrite decide_False; [done|].
  simpl. congruence.
Qed.

Lemma strip_prefix_app p s : strip_prefix p (p ++ s) = Some s.
Proof.
  unfold strip_prefix. rewrite take_app_length, decide_True by done.
  by rewrite drop_app_length.
Qed.

Lemma dec_of_Z_parse z rest f :
  ends_number rest ->
  mini_parse (S f) (dec_of_Z z ++ rest) = Some (PInt z, rest).
Proof.
  intros Hrest. unfold dec_of_Z.
  destruct (dec_of_N_digits (Z.to_N (Z.abs z))) as (ds & -> & Hds & Hne & Hval).
  rewrite mini_parse_S.
  destruct (z <? 0)%Z eqn:Hz.
  - apply Z.ltb_lt in Hz. cbn [app skip_ws]. change (is_json_ws 45) with false.
    change (45 =? 123) with false. change (45 =? 34) with false.
    change (45 =? 45) with true. cbv iota.
    rewrite (span_digits_app ds rest 0%Z false Hds (or_introl Hne) Hrest), Hval. cbn.
    do 3 f_equal. lia.
  - apply Z.ltb_ge in Hz. destruct ds as [|c ds]; [done|].
    pose proof (span_digits_app (c :: ds) rest 0%Z false Hds (or_introl Hne) Hrest) as Hspan.
    simpl in Hds. apply andb_true_iff in Hds as [Hc _].
    unfold is_digit in Hc. apply andb_true_iff in Hc as [H1 H2].
    apply N.leb_le in H1, H2.
    assert (Hws : is_json_ws c = false).
    { unfold is_json_ws. repeat (apply orb_false_iff; split); apply N.eqb_neq; lia. }
    cbn [app skip_ws]. rewrite Hws.
    assert (E1 : (c =? 123) = false) by (apply N.eqb_neq; lia).
    assert (E2 : (c =? 34) = false) by (apply N.eqb_neq; lia).
    assert (E3 : (c =? 45) = false) by (apply N.eqb_neq; lia).
    rewrite E1, E2, E3.
    rewrite (strip_prefix_other (str "null") 110 _ c _ eq_refl) by lia.
    rewrite (strip_prefix_other (str "true") 116 _ c _ eq_refl) by lia.
    rewrite (strip_prefix_other (str "false") 102 _ c _ eq_refl) by lia.
    change (c :: ds ++ rest) with ((c :: ds) ++ rest). rewrite Hspan, Hval. cbn.
    do 3 f_equal. lia.
Qed.

Lemma parse_string_body_plain k : forall acc rest,
  forallb plain_char k = true ->
  parse_string_body (k ++ 34 :: rest) acc = Some (rev acc ++ k, rest).
Proof.
  induction k as [|c k IH]; intros acc rest Hk.
  - simpl. by rewrite app_nil_r.
  - simpl in Hk. apply andb_true_iff in Hk as [Hc Hk]. cbn [app parse_string_body].
    assert (Hq : (c =? 34) = false).
    { unfold plain_char in Hc. destruct (c =? 34); [|done].
      by rewrite andb_false_r in Hc. }
    rewrite Hq, Hc, IH by done. simpl. by rewrite <- app_assoc.
Qed.

Lemma mini_scalar_parse v e rest f :
  mini_scalar v = Some e -> ends_number rest ->
  mini_parse (S f) (e ++ rest) = Some (v, rest).
Proof.
  intros He Hrest. destruct v as [|[|]|z|bits|s|l|d]; simpl in He; try done.
  - injection He as <-. by rewrite mini_parse_S.
  - injection He as <-. by rewrite mini_parse_S.
  - injection He as <-. by rewrite mini_parse_S.
  - injection He as <-. by apply dec_of_Z_parse.
  - unfold quoted in He. destruct (forallb plain_char s) eqn:Hs; [|done].
    injection He as <-. rewrite mini_parse_S. cbn [app skip_ws].
    change (is_json_ws 34) with false. change (34 =? 123) with false.
    change (34 =? 34) with true. cbv iota.
    rewrite <- app_assoc. cbn [app].
    by rewrite (parse_string_body_plain s [] rest Hs).
Qed.

Lemma skip_ws_idem s : skip_ws (skip_ws s) = skip_ws s.
Proof.
  induction s as [|c s IH]; [done|]. simpl.
  destruct (is_json_ws c) eqn:Hc; [done|]. simpl. by rewrite Hc.
Qed.

Lemma skip_ws_app ws s : forallb is_json_ws ws = true -> skip_ws (ws ++ s) = skip_ws s.
Proof.
  induction ws as [|c ws IH]; [done|]. simpl. intros H.
  apply andb_true_iff in H as [-> H]. by apply IH.
Qed.

Lemma mini_parse_skip f s : mini_parse f (skip_ws s) = mini_parse f s.
Proof. destruct f; [done|]. by rewrite !mini_parse_S, skip_ws_idem. Qed.

Lemma mini_members_skip f s acc : mini_members f (skip_ws s) acc = mini_members f s acc.
Proof. destruct f; [done|]. by rewrite !mini_members_S, skip_ws_idem. Qed.

Lemma mini_scalar_parses_back : parses_back mini_scalar.
Proof.
  intros v e rest f He Hrest Hlen. destruct f as [|f]; [lia|].
  by apply mini_scalar_parse.
Qed.

(** One member: the key, the colon and the value are read, and what
    follows decides. *)
Lemma mini_member_parse inner enc kv item after f acc :
  parses_back enc -> forallb is_json_ws inner = true ->
  mini_member inner enc kv = Some item ->
  ends_number after -> (length (item ++ after) < S f)%nat ->
  mini_members (S f) (item ++ after) acc
  = match skip_ws after with
    | c5 :: s5 =>
        if c5 =? 44 then mini_members f s5 (<[kv.1 := kv.2]> acc)
        else if c5 =? 125 then Some (PDict (<[kv.1 := kv.2]> acc), s5)
        else None
    | [] => None
    end.
Proof.
  intros Henc Hin Hitem Hafter Hlen. destruct kv as [k v].
  unfold mini_member, quoted in Hitem. cbn [fst snd] in Hitem.
  destruct (forallb plain_char k) eqn:Hk; [|done]. cbn [mbind option_bind] in Hitem.
  destruct (enc v) as [e|] eqn:He; [|done]. cbn [mbind option_bind] in Hitem.
  apply (inj Some) in Hitem. subst item. cbn [fst snd].
  rewrite mini_members_S.
  replace ((inner ++ (34 :: k ++ [34]) ++ str ": " ++ e) ++ after)
    with (inner ++ 34 :: (k ++ 34 :: 58 :: 32 :: (e ++ after))) in *
    by (by rewrite <- !app_assoc; simpl; rewrite <- !app_assoc).
  rewrite (skip_ws_app inner _ Hin). cbn [skip_ws].
  change (is_json_ws 34) with false. change (34 =? 34) with true. cbv iota.
  rewrite (parse_string_body_plain k [] _ Hk). cbn [mbind option_bind fst snd rev app].
  cbn [skip_ws]. change (is_json_ws 58) with false. change (58 =? 58) with true. cbv iota.
  rewrite <- (mini_parse_skip f (32 :: e ++ after)). cbn [skip_ws].
  change (is_json_ws 32) with true. cbv iota. rewrite mini_parse_skip.
  rewrite (Henc v e after f He Hafter).
  - done.
  - rewrite length_app in Hlen. cbn [length] in Hlen.
    rewrite length_app in Hlen. cbn [length] in Hlen. lia.
Qed.

Lemma mini_member_head inner enc kv item :
  mini_member inner enc kv = Some item -> exists x, item = inner ++ 34 :: x.
Proof.
  unfold mini_member, quoted. destruct (forallb plain_char kv.1); [|done].
  cbn [mbind option_bind]. destruct (enc kv.2) as [e|]; [|done].
  cbn [mbind option_bind]. intros Hitem. apply (inj Some) in Hitem. subst item.
  exists (kv.1 ++ [34] ++ str ": " ++ e). f_equal. cbn [app]. by rewrite <- app_assoc.
Qed.

Lemma mini_members_ws f c s acc :
  is_json_ws c = true -> mini_members f (c :: s) acc = mini_members f s acc.
Proof.
  intros Hc. rewrite <- (mini_members_skip f (c :: s)), <- (mini_members_skip f s).
  cbn [skip_ws]. by rewrite Hc.
Qed.

(** The members of a dict, up to its closing brace. *)
Lemma mini_members_parse inner outer enc :
  parses_back enc ->
  forallb is_json_ws inner = true -> forallb is_json_ws outer = true ->
  forall kvs items,
    Forall2 (fun kv item => mini_member inner enc kv = Some item) kvs items ->
    kvs <> [] ->
    forall f acc rest,
      Nat.lt (length (join_lines (str "," ++ [10]) items ++ 10 :: outer ++ 125 :: rest)) f ->
      mini_members f (join_lines (str "," ++ [10]) items ++ 10 :: outer ++ 125 :: rest) acc
      = Some (PDict (insert_all kvs acc), rest).
Proof.
  intros Henc Hin Hout kvs items Hall.
  induction Hall as [|kv item kvs items Hitem Hrest IH]; [done|].
  intros _ f acc rest Hlen. destruct f as [|f]; [lia|].
  destruct Hrest as [|kv2 item2 kvs items Hitem2 Hrest].
  - cbn [join_lines] in *.
    rewrite (mini_member_parse inner enc kv item (10 :: outer ++ 125 :: rest) f acc
               Henc Hin Hitem eq_refl Hlen).
    cbn [skip_ws]. change (is_json_ws 10) with true. cbv iota.
    rewrite (skip_ws_app outer _ Hout). by cbn.
  - change (join_lines (str "," ++ [10]) (item :: item2 :: items))
      with (item ++ (str "," ++ [10]) ++ join_lines (str "," ++ [10]) (item2 :: items)) in *.
    set (more := join_lines (str "," ++ [10]) (item2 :: items)) in *.
    replace ((item ++ (str "," ++ [10]) ++ more) ++ 10 :: outer ++ 125 :: rest)
      with (item ++ 44 :: 10 :: (more ++ 10 :: outer ++ 125 :: rest)) in *
      by (by rewrite <- !app_assoc).
    rewrite (mini_member_parse inner enc kv item
               (44 :: 10 :: (more ++ 10 :: outer ++ 125 :: rest)) f acc
               Henc Hin Hitem eq_refl Hlen).
    cbn [skip_ws]. change (is_json_ws 44) with false. change (44 =? 44) with true.
    cbv iota. rewrite mini_members_ws by done.
    rewrite IH; [done|done|]. rewrite length_app in Hlen. cbn [length] in Hlen. lia.
Qed.

Lemma insert_all_union kvs : forall acc,
  NoDup kvs.*1 -> insert_all kvs acc = list_to_map kvs ∪ acc.
Proof.
  induction kvs as [|[k v] kvs IH]; intros acc Hnd.
  - simpl. by rewrite (left_id ∅ (∪)).
  - apply NoDup_cons in Hnd as [Hk Hnd]. cbn [insert_all fold_left fst snd].
    change (fold_left _ kvs ?a) with (insert_all kvs a). rewrite IH by done.
    cbn [list_to_map foldr]. change (foldr _ ∅ kvs) with (list_to_map kvs : gmap pystr pyval).
    rewrite <- insert_union_l, <- insert_union_r; [done|].
    by apply not_elem_of_list_to_map_1.
Qed.

Lemma insert_all_map_to_list (d : gmap pystr pyval) : insert_all (map_to_list d) ∅ = d.
Proof.
  rewrite insert_all_union by apply NoDup_fst_map_to_list.
  by rewrite (right_id ∅ (∪)), list_to_map_to_list.
Qed.

Lemma mini_dict_parses_back inner outer enc d e rest f :
  parses_back enc ->
  forallb is_json_ws inner = true -> forallb is_json_ws outer = true ->
  mini_dict inner outer enc d = Some e -> (length (e ++ rest) < f)%nat ->
  mini_parse f (e ++ rest) = Some (PDict d, rest).
Proof.
  intros Henc Hin Hout He Hlen. destruct f as [|f]; [lia|].
  unfold mini_dict in He. destruct (map_to_list d) as [|kv kvs] eqn:Hl.
  - apply map_to_list_empty_iff in Hl as ->. apply (inj Some) in He. subst e.
    by rewrite mini_parse_S.
  - change (fun kv0 : pystr * pyval =>
              k ← quoted kv0.1; e0 ← enc kv0.2; Some (inner ++ k ++ str ": " ++ e0))
      with (mini_member inner enc) in He.
    destruct (mapM (mini_member inner enc) (kv :: kvs)) as [items|] eqn:Hitems; [|done].
    cbn [mbind option_bind] in He. apply (inj Some) in He. subst e.
    apply mapM_Some in Hitems.
    pose proof (mini_members_parse inner outer enc Henc Hin Hout _ _ Hitems
                  ltac:(done)) as Hmem.
    set (J := join_lines (str "," ++ [10]) items) in *.
    assert (Htext : (str "{" ++ [10] ++ J ++ [10] ++ outer ++ str "}") ++ rest
                    = 123 :: 10 :: (J ++ 10 :: outer ++ 125 :: rest)).
    { change (str "{") with [123]. change (str "}") with [125].
      cbn [app]. rewrite <- !app_assoc. cbn [app]. by rewrite <- !app_assoc. }
    rewrite Htext in *.
    assert (Hhead : exists x, skip_ws (J ++ 10 :: outer ++ 125 :: rest) = 34 :: x).
    { inversion Hitems as [|kv' item kvs' items' Hitem Hmore]; subst.
      destruct (mini_member_head inner enc kv item Hitem) as [x ->].
      subst J. destruct items' as [|item2 items'].
      - cbn [join_lines]. rewrite <- app_assoc, (skip_ws_app inner _ Hin).
        by eexists.
      - change (join_lines (str "," ++ [10]) ((inner ++ 34 :: x) :: item2 :: items'))
          with ((inner ++ 34 :: x) ++ (str "," ++ [10])
                  ++ join_lines (str "," ++ [10]) (item2 :: items')).
        rewrite <- !app_assoc, (skip_ws_app inner _ Hin). by eexists. }
    destruct Hhead as [x Hx].
    rewrite mini_parse_S. cbn [skip_ws]. change (is_json_ws 123) with false.
    change (123 =? 123) with true. cbv iota.
    cbn [skip_ws]. change (is_json_ws 10) with true. cbv iota.
    rewrite Hx. change (34 =? 125) with false. cbv iota.
    rewrite <- Hx, mini_members_skip, Hmem, <- Hl, insert_all_map_to_list; [done|].
    cbn [length] in Hlen. lia.
Qed.

Lemma mini_encode_parses_back : parses_back mini_encode.
Proof.
  intros v e rest f He Hrest Hlen.
  destruct v as [|b|z|bits|s|l|d]; try by eapply mini_scalar_parses_back.
  cbn [mini_encode] in He.
  eapply (mini_dict_parses_back (str "  ") []); [|done|done|exact He|done].
  intros v' e' rest' f' He' Hrest' Hlen'.
  destruct v' as [|b|z|bits|s|l|d']; try by eapply mini_scalar_parses_back.
  by eapply (mini_dict_parses_back (str "    ") (str "  "));
    [apply mini_scalar_parses_back|done|done|exact He'|done].
Qed.

(** The small codec reads back what it wrote. *)
Lemma ascii_round_trip : JsonRoundTrip ascii_runtime.
Proof.
  intros v chunks _ Henc. cbn [json_iterencode ascii_runtime] in Henc.
  unfold mini_iterencode in Henc.
  destruct (mini_encode v) as [text|] eqn:He; [|done].
  apply (f_equal fst) in Henc. cbn [fst] in Henc. subst chunks.
  cbn [json_loads ascii_runtime concat]. rewrite app_nil_r. unfold mini_loads.
  pose proof (mini_encode_parses_back v text [] (S (length text)) He I) as Hparse.
  rewrite app_nil_r in Hparse. by rewrite Hparse by lia.
Qed.

End Small_codec_facts.

(** * The program on concrete inputs, with the small runtime *)

#[local] Existing Instance ascii_runtime.

Lemma correct_name_suppresses_witness :
  contains_whole_word CORRECT_NAME (str "Mbuemo? No: MBEUMO!") /\
  find_misspelling (str "Mbuemo? No: MBEUMO!") = None.
Proof.
  assert (H : contains_whole_word CORRECT_NAME (str "Mbuemo? No: MBEUMO!")).
  { exists (str "Mbuemo? No: "), (str "MBEUMO"), (str "!"). repeat split. }
  split; [exact H | exact (correct_name_suppresses _ H)].
Defined.

Lemma first_pattern_in_order_witness :
  ~ contains_whole_word CORRECT_NAME (str "mboma, MBUEMO and mbuemo") /\
  exists k w,
    MISSPELLING_WORDS !! k = Some w /\
    MISSPELLINGS !! k = Some (word_pattern w) /\
    (exists pre post,
       leftmost_whole_word w (str "mboma, MBUEMO and mbuemo") pre (str "MBUEMO") post) /\
    forall j w', (j < k)%nat -> MISSPELLING_WORDS !! j = Some w' ->
                 ~ contains_whole_word w' (str "mboma, MBUEMO and mbuemo").
Proof.
  assert (Hno : ~ contains_whole_word CORRECT_NAME (str "mboma, MBUEMO and mbuemo")).
  { apply (re_search_word_None (str "mbeumo")); reflexivity. }
  split; [exact Hno|].
  apply (proj1 (proj1 first_pattern_in_order _ Hno)). reflexivity.
Defined.

Lemma positive_result_witness :
  find_misspelling (str "what a run from mbeuNO_7, no: Mbeuno") = Some (str "Mbeuno") /\
  ~ any_casing CORRECT_NAME (str "Mbeuno").
Proof.
  assert (H : find_misspelling (str "what a run from mbeuNO_7, no: Mbeuno") = Some (str "Mbeuno"))
    by reflexivity.
  split; [exact H|]. apply (positive_result _ _ H).
Defined.

Lemma total_matches_sum_witness :
  stats_consistent sample_stats /\
  exists stats',
    record_corrections [str "Mbuemo"; str "MBOOMO"] sample_stats = (inr tt, stats') /\
    stats_consistent stats'.
Proof.
  assert (H : stats_consistent sample_stats).
  { exists 3%Z, {[ str "mbuemo" := PInt 2; str "mboma" := PInt 1 ]}.
    split; vm_compute; reflexivity. }
  split; [exact H | exact (total_matches_sum _ _ H)].
Defined.

Lemma record_correction_increments_witness :
  stats_typed sample_stats /\
  exists stats' counts',
    record_correction (str "MBoma") sample_stats = (inr tt, stats') /\
    counts_of stats' = Some (4%Z, counts') /\
    counts' !! str "mboma" = Some (PInt 2).
Proof.
  assert (H : stats_typed sample_stats).
  { apply stats_consistent_typed.
    exists 3%Z, {[ str "mbuemo" := PInt 2; str "mboma" := PInt 1 ]}.
    split; vm_compute; reflexivity. }
  split; [exact H|].
  destruct (record_correction_increments (str "MBoma") sample_stats H 3%Z
              {[ str "mbuemo" := PInt 2; str "mboma" := PInt 1 ]})
    as (stats' & counts' & Hrun & Hc & Hkey & _); [vm_compute; reflexivity|].
  exists stats', counts'. split; [exact Hrun|]. split; [exact Hc|]. exact Hkey.
Defined.

(** C4, on a data directory the process may not search: [load_stats]
    raises; and on a file that does not parse: it returns the fresh dict. *)
Lemma load_stats_fail_open_witness :
  load_stats locked_world
  = (inl (Exn OSError (str "[Errno 13] Permission denied: '/data/stats.json'")),
     locked_world) /\
  load_stats (quiet_world (Content (str "not json")) ∅)
  = (inr (PDict (default_stats (str "2025-01-01T00:00:00+00:00"))),
     quiet_world (Content (str "not json")) ∅).
Proof.
  split.
  - apply (proj1 (load_stats_fail_open locked_world)). reflexivity.
  - apply (proj2 (load_stats_fail_open (quiet_world (Content (str "not json")) ∅))).
    right; right; right; left. eexists _, _. split; vm_compute; reflexivity.
Defined.

Lemma load_stats_merges_witness :
  exists d',
    load_stats (quiet_world (Content partial_file_text) ∅)
    = (inr (PDict d'), quiet_world (Content partial_file_text) ∅) /\
    d' !! str "total_corrections" = Some (PInt 7) /\
    d' !! str "misspellings" = Some (PDict ∅).
Proof.
  destruct (load_stats_merges (quiet_world (Content partial_file_text) ∅)
              partial_file_text {[ str "total_corrections" := PInt 7 ]})
    as (d' & Hload & Hkeep & _ & _ & Hms & _); [reflexivity|vm_compute; reflexivity|].
  exists d'. split; [exact Hload|]. split.
  - apply Hkeep. vm_compute; reflexivity.
  - apply Hms. vm_compute; reflexivity.
Defined.

Lemma save_stats_never_raises_witness :
  (save_stats sample_stats read_only_world).1 = inr tt /\
  stdout (save_stats sample_stats read_only_world).2
  = [str "[STATS] Failed to save: [Errno 13] Permission denied: '/data/stats.json'"].
Proof.
  destruct (save_stats_never_raises sample_stats read_only_world) as (Hret & Hlog & _).
  split; [exact Hret|]. apply (Hlog (Exn OSError _)). reflexivity.
Defined.



Lemma poll_interval_floor_witness :
  poll_interval_setup (quiet_world Absent {[ str "POLL_INTERVAL_SECONDS" := str "15" ]})
  = (inr 15%Z, quiet_world Absent {[ str "POLL_INTERVAL_SECONDS" := str "15" ]}).
Proof.
  destruct (proj1 poll_interval_floor
              (quiet_world Absent {[ str "POLL_INTERVAL_SECONDS" := str "15" ]})
              (str "15") 15%Z) as [Hkeep _];
    [vm_compute; reflexivity | vm_compute; reflexivity | apply Hkeep; lia].
Defined.

(** C6, as stated.  A configured 5 is raised to 10, but not silently: the
    run prints the warning line. *)
Lemma poll_interval_not_silent :
  stdout (quiet_world Absent {[ str "POLL_INTERVAL_SECONDS" := str "5" ]}) = [] /\
  (poll_interval_setup
     (quiet_world Absent {[ str "POLL_INTERVAL_SECONDS" := str "5" ]})).1 = inr 10%Z /\
  stdout (poll_interval_setup
            (quiet_world Absent {[ str "POLL_INTERVAL_SECONDS" := str "5" ]})).2
  = [POLL_WARNING].
Proof. repeat split; vm_compute; reflexivity. Qed.

(** * The reply, the configuration and the loop on concrete inputs *)

#[local] Existing Instance ascii_text.

Lemma counted_key_is_listed_witness :
  find_misspelling (str "Blame MBOMA!") = Some (str "MBOMA") /\
  py_lower (str "MBOMA") ∈ MISSPELLING_WORDS.
Proof.
  assert (H : find_misspelling (str "Blame MBOMA!") = Some (str "MBOMA")) by reflexivity.
  split; [exact H | exact (proj1 (counted_key_is_listed _ _ H))].
Defined.

Lemma save_stats_overwrites_witness :
  file (save_stats sample_stats read_only_world).2 = file read_only_world /\
  file (save_stats sample_stats write_only_world).2 = file write_only_world /\
  exists written,
    written `prefix_of` concat (json_iterencode sample_stats).1 /\
    file (save_stats sample_stats full_disk_world).2 = Content written.
Proof.
  split; [|split].
  - destruct (save_stats_overwrites sample_stats read_only_world) as [Hkeep _].
    eapply Hkeep. reflexivity.
  - destruct (save_stats_overwrites sample_stats write_only_world) as (_ & Hstays & _).
    eapply Hstays. reflexivity.
  - destruct (save_stats_overwrites sample_stats full_disk_world) as (_ & _ & Hcut).
    destruct Hcut as (written & Hpre & Hfile & _); [reflexivity|reflexivity|].
    exists written. split; [exact Hpre | exact Hfile].
Defined.

Lemma load_stats_reads_only_witness :
  (load_stats locked_world).1
  = inl (Exn OSError (str "[Errno 13] Permission denied: '/data/stats.json'")).
Proof.
  apply (proj2 (proj1 (proj2 (load_stats_reads_only locked_world)) _)). reflexivity.
Defined.

Lemma failed_correction_leaves_counts_witness :
  record_correction (str "Mbuemo") broken_stats
  = (inl (Exn AttributeError []),
     PDict {[ str "total_corrections" := PInt 4; str "misspellings" := PNone ]}) /\
  field (PDict {[ str "total_corrections" := PInt 4; str "misspellings" := PNone ]})
    (str "misspellings")
  = field broken_stats (str "misspellings").
Proof.
  assert (H : record_correction (str "Mbuemo") broken_stats
              = (inl (Exn AttributeError []),
                 PDict {[ str "total_corrections" := PInt 4;
                          str "misspellings" := PNone ]}))
    by (vm_compute; reflexivity).
  split; [exact H | exact (proj1 (failed_correction_leaves_counts _ _ _ _ H))].
Defined.

Lemma setup_postcondition_witness :
  (10 <= 10)%Z /\ (44 ∉ str "reddevils+soccer").
Proof.
  destruct (setup_postcondition sample_stats configured_world 10%Z (str "reddevils+soccer")
              (main_setup sample_stats configured_world).2) as (Hfloor & Hcomma & _);
    [vm_compute; reflexivity | split; [exact Hfloor | exact Hcomma]].
Defined.

Lemma malformed_interval_is_fatal_witness :
  poll_interval_setup (quiet_world Absent {[ str "POLL_INTERVAL_SECONDS" := str "30s" ]})
  = (raise_on ValueError (PStr (str "30s")),
     quiet_world Absent {[ str "POLL_INTERVAL_SECONDS" := str "30s" ]}).
Proof.
  apply (malformed_interval_is_fatal _ (str "30s") 115).
  - vm_compute; reflexivity.
  - reflexivity.
  - simpl; lia.
  - apply list_elem_of_In. right; right; left. reflexivity.
  - reflexivity.
Defined.

Lemma missing_credential_is_fatal_witness :
  main_setup sample_stats (quiet_world Absent {[ str "REDDIT_CLIENT_ID" := str "id" ]})
  = (raise_on KeyError (PStr (str "REDDIT_CLIENT_SECRET")),
     quiet_world Absent {[ str "REDDIT_CLIENT_ID" := str "id" ]}).
Proof.
  apply (missing_credential_is_fatal _ _ 1%nat).
  - reflexivity.
  - vm_compute; reflexivity.
  - intros j earlier Hj. destruct j as [|j]; [|lia].
    intros [= <-]. vm_compute. eauto.
Defined.

Lemma failed_reply_is_not_counted_witness :
  stats (handle_comment None flaky_comment (inr (str "mbeumo_bot")) sample_bot).2
  = sample_stats /\
  did (handle_comment None flaky_comment (inr (str "mbeumo_bot")) sample_bot).2
  = [Reply flaky_comment (reply_text (str "Mbuemo"))].
Proof.
  destruct (failed_reply_is_not_counted None flaky_comment (inr (str "mbeumo_bot"))
              sample_bot (Exn OSError (str "received 503 HTTP response"))
              (or_intror eq_refl)) as (Hstats & _).
  split; [rewrite Hstats; vm_compute; reflexivity | vm_compute; reflexivity].
Defined.



Lemma due_comment_is_corrected_witness :
  exists stats',
    record_correction (str "Mbuemo") sample_stats = (inr tt, stats') /\
    did (handle_comment (Some (str "Match Thread")) due_comment (inr (str "mbeumo_bot"))
           sample_bot).2
    = [Reply due_comment (reply_text (str "Mbuemo")); MarkSaved due_comment].
Proof.
  destruct (due_comment_is_corrected (Some (str "Match Thread")) due_comment
              (inr (str "mbeumo_bot")) sample_bot (str "Mbuemo") 3%Z
              {[ str "mbuemo" := PInt 2; str "mboma" := PInt 1 ]})
    as (stats' & Hrec & Hrun & _); try (vm_compute; reflexivity).
  exists stats'. split; [exact Hrec|]. by rewrite Hrun.
Defined.
